(** * A shallow embedding of [assembler.py]

    The two-pass assembler of the Logisim side-scroller CPU
    ([class AssemblyCompiler]) is embedded function by function:
    Python integers are [Z], Python strings are [string], the label
    dictionary is a [gmap string Z], raised exceptions are values of
    [exn], and the mutable instance fields are threaded through a small
    state-and-exception monad.

    Alphabet.  Source text is taken to be ASCII: the character classes
    used by [str.strip], [str.split], [str.upper] and [int] are the ones
    Python applies to code points below 128, and a character above 127
    is treated as an ordinary symbol (neither blank, letter nor digit).
    The interpreter's configurable limit on the number of digits of a
    decimal literal is not modelled. *)

From Stdlib Require Import ZArith String Ascii List Lia.
From Stdlib Require DecimalString HexadecimalString.
From stdpp Require Import gmap strings list.

Open Scope string_scope.
Open Scope list_scope.
Open Scope Z_scope.

(* ================================================================== *)
(** ** Python built-ins used by the assembler                          *)
(* ================================================================== *)

Module Py.

(** Code point of a character. *)
Definition ord (c : ascii) : Z := Z.of_N (N_of_ascii c).

Definition chr (n : Z) : ascii := ascii_of_N (Z.to_N n).

(** [str.isspace] on one ASCII character: TAB, LF, VT, FF, CR, the four
    separators FS GS RS US, and the blank. *)
Definition isspace (c : ascii) : bool :=
  let n := ord c in
  ((9 <=? n) && (n <=? 13)) || ((28 <=? n) && (n <=? 31)) || (n =? 32).

(** The blanks skipped by [int()] around a numeral. *)
Definition int_isspace (c : ascii) : bool :=
  let n := ord c in ((9 <=? n) && (n <=? 13)) || (n =? 32).

Definition is_char (a c : ascii) : bool := bool_decide (c = a).

Definition is_empty (s : string) : bool :=
  match s with "" => true | _ => false end.

(** The first character exists and satisfies [p]. *)
Definition first_satisfies (p : ascii -> bool) (s : string) : bool :=
  match s with
  | "" => false
  | String c _ => p c
  end.

(** [s.lstrip(chars)], [s.rstrip(chars)], [s.strip(chars)], with the
    set of stripped characters given as a predicate. *)
Fixpoint lstrip (p : ascii -> bool) (s : string) : string :=
  match s with
  | "" => ""
  | String c r => if p c then lstrip p r else s
  end.

Fixpoint rstrip (p : ascii -> bool) (s : string) : string :=
  match s with
  | "" => ""
  | String c r =>
      let r' := rstrip p r in
      if p c && is_empty r' then "" else String c r'
  end.

Definition strip (p : ascii -> bool) (s : string) : string :=
  rstrip p (lstrip p s).

(** [s.partition(sep)] for a one-character separator: the text before
    the first occurrence, and the text after it when there is one. *)
Fixpoint partition (sep : ascii) (s : string) : string * option string :=
  match s with
  | "" => ("", None)
  | String c r =>
      if is_char sep c then ("", Some r)
      else let '(h, t) := partition sep r in (String c h, t)
  end.

(** [s.split(sep)] for a one-character separator; never empty. *)
Fixpoint split_on (sep : ascii) (s : string) : list string :=
  match s with
  | "" => [""]
  | String c r =>
      if is_char sep c then "" :: split_on sep r
      else match split_on sep r with
           | h :: t => String c h :: t
           | [] => [String c ""]
           end
  end.

(** [s.split()]: maximal runs of non-blank characters. *)
Fixpoint split (s : string) : list string :=
  match s with
  | "" => []
  | String c r =>
      if isspace c then split r
      else match r with
           | "" => [String c ""]
           | String c' _ =>
               if isspace c' then String c "" :: split r
               else match split r with
                    | w :: ws => String c w :: ws
                    | [] => [String c ""]
                    end
           end
  end.

Definition upper_char (c : ascii) : ascii :=
  let n := ord c in
  if (97 <=? n) && (n <=? 122) then chr (n - 32) else c.

Fixpoint upper (s : string) : string :=
  match s with
  | "" => ""
  | String c r => String (upper_char c) (upper r)
  end.

Definition startswith (pre s : string) : bool := String.prefix pre s.

Fixpoint slice_from (n : nat) (s : string) : string :=
  match n, s with
  | O, _ => s
  | S n', String _ r => slice_from n' r
  | S _, "" => ""
  end.

Fixpoint zeros (n : nat) : string :=
  match n with O => "" | S n' => String "0" (zeros n') end.

(** [s.zfill(width)]: zeros go after a leading sign. *)
Definition zfill (width : nat) (s : string) : string :=
  let pad := zeros (width - String.length s) in
  match s with
  | String c r =>
      if is_char "+" c || is_char "-" c then String c (pad +:+ r)
      else pad +:+ s
  | "" => pad
  end.

(** Value of a digit in bases up to 36. *)
Definition digit_value (c : ascii) : option Z :=
  let n := ord c in
  if (48 <=? n) && (n <=? 57) then Some (n - 48)
  else if (97 <=? n) && (n <=? 122) then Some (n - 87)
  else if (65 <=? n) && (n <=? 90) then Some (n - 55)
  else None.

(** The digit scanner of [int(s, base)]: digits below the base, single
    underscores between them, at least one digit, nothing else. *)
Fixpoint scan_digits (base : Z) (prev_us seen : bool) (acc : Z) (s : string)
  : option Z :=
  match s with
  | "" => if prev_us || negb seen then None else Some acc
  | String c r =>
      if is_char "_" c then
        if prev_us || negb seen then None
        else scan_digits base true seen acc r
      else
        match digit_value c with
        | Some d =>
            if d <? base then scan_digits base false true (acc * base + d) r
            else None
        | None => None
        end
  end.

(** After the sign, bases 16 and 2 accept their own prefix, which may be
    followed by one underscore. *)
Definition skip_prefix (base : Z) (s : string) : string :=
  if ((base =? 16) && (startswith "0x" s || startswith "0X" s))
     || ((base =? 2) && (startswith "0b" s || startswith "0B" s))
  then
    let r := slice_from 2 s in
    if first_satisfies (is_char "_") r then slice_from 1 r else r
  else s.

(** [int(s, base)] for base 2, 10 or 16; [None] stands for the
    [ValueError] the built-in raises.  Blanks around the numeral are
    skipped, then an optional sign, then the prefix of the base; the
    digits may not start with an underscore. *)
Definition int (base : Z) (s : string) : option Z :=
  let s := strip int_isspace s in
  let '(sign, s) :=
    if first_satisfies (is_char "+") s then (1, slice_from 1 s)
    else if first_satisfies (is_char "-") s then (-1, slice_from 1 s)
    else (1, s) in
  let body := skip_prefix base s in
  if first_satisfies (is_char "_") body then None
  else
    match scan_digits base false false 0 body with
    | Some v => Some (sign * v)
    | None => None
    end.

(** Binary digits of a positive number, most significant first. *)
Fixpoint pos_bin (p : positive) : string :=
  match p with
  | xH => "1"
  | xO q => pos_bin q +:+ "0"
  | xI q => pos_bin q +:+ "1"
  end.

Definition bin_digits (n : Z) : string :=
  match n with
  | 0 => "0"
  | Zpos p => pos_bin p
  | Zneg p => pos_bin p
  end.

(** [format(n, '05b')]: binary, zero-padded to width 5, sign included. *)
Definition format_05b (n : Z) : string :=
  let d := bin_digits n in
  if n <? 0 then String "-" (zeros (4 - String.length d) +:+ d)
  else zeros (5 - String.length d) +:+ d.

(** [hex(n)]. *)
Definition hex (n : Z) : string :=
  let d := HexadecimalString.NilZero.string_of_uint (N.to_hex_uint (Z.abs_N n)) in
  if n <? 0 then "-0x" +:+ d else "0x" +:+ d.

(** [str(n)]. *)
Definition str (n : Z) : string :=
  DecimalString.NilZero.string_of_int (Z.to_int n).

(** [bin(n)]. *)
Definition bin (n : Z) : string :=
  if n <? 0 then "-0b" +:+ bin_digits n else "0b" +:+ bin_digits n.

(** [c in s]. *)
Fixpoint contains (c : ascii) (s : string) : bool :=
  match s with
  | "" => false
  | String d r => is_char c d || contains c r
  end.

(** [s[:n]]. *)
Fixpoint slice_to (n : nat) (s : string) : string :=
  match n, s with
  | S n', String c r => String c (slice_to n' r)
  | _, _ => ""
  end.

Definition quote_char : ascii := "039"%char.
Definition double_quote_char : ascii := "034"%char.
Definition backslash_char : ascii := "092"%char.

Definition hex_digit_char (n : Z) : ascii :=
  if n <? 10 then chr (48 + n) else chr (87 + n).

(** How [repr] writes one character between the quotes [quote]. *)
Definition repr_char (quote c : ascii) : string :=
  let n := ord c in
  if is_char quote c || is_char backslash_char c
  then String backslash_char (String c "")
  else if n =? 9 then String backslash_char "t"
  else if n =? 10 then String backslash_char "n"
  else if n =? 13 then String backslash_char "r"
  else if (n <? 32) || (n =? 127)
  then String backslash_char
         (String "x" (String (hex_digit_char (n / 16))
                        (String (hex_digit_char (n mod 16)) "")))
  else String c "".

Fixpoint repr_body (quote : ascii) (s : string) : string :=
  match s with
  | "" => ""
  | String c r => repr_char quote c +:+ repr_body quote r
  end.

(** [repr(s)]: single quotes, unless the text has a single quote and no
    double quote. *)
Definition repr (s : string) : string :=
  let quote :=
    if contains quote_char s && negb (contains double_quote_char s)
    then double_quote_char else quote_char in
  String quote (repr_body quote s +:+ String quote "").

End Py.

Import Py.

(* ================================================================== *)
(** ** Exceptions, instance state and the compiler monad               *)
(* ================================================================== *)

(** The two exception classes the assembler raises; [ValueError] is a
    subclass of [Exception]. *)
Inductive exn : Type :=
  | ValueError (msg : string)
  | Exception (msg : string).

(** [str(e)]. *)
Definition exn_str (e : exn) : string :=
  match e with ValueError m => m | Exception m => m end.

Inductive result (A : Type) : Type :=
  | Return (a : A)
  | Raise (e : exn).
Arguments Return {A} a.
Arguments Raise {A} e.

(** [try: r except ValueError as e: h e]; an [Exception] that is not a
    [ValueError] passes through. *)
Definition except_ValueError {A} (r : result A) (h : string -> result A)
  : result A :=
  match r with
  | Raise (ValueError m) => h m
  | _ => r
  end.

(** The mutable fields of an instance ([self.instructions] is never
    assigned after construction and is the constant [instructions]). *)
Record AssemblyCompiler : Type := mkCompiler {
  labels : gmap string Z;
  current_address : Z
}.

(** [AssemblyCompiler()]. *)
Definition init : AssemblyCompiler :=
  {| labels := ∅; current_address := 0 |}.

(** A method body: it runs on an instance, returns or raises, and leaves
    the instance as mutated up to that point. *)
Definition M (A : Type) : Type :=
  AssemblyCompiler -> result A * AssemblyCompiler.

Definition ret {A} (a : A) : M A := fun self => (Return a, self).

Definition raise {A} (e : exn) : M A := fun self => (Raise e, self).

Definition bind {A B} (m : M A) (k : A -> M B) : M B :=
  fun self =>
    match m self with
    | (Return a, self') => k a self'
    | (Raise e, self') => (Raise e, self')
    end.

(** [try: m except Exception as e: h e]. *)
Definition try_except {A} (m : M A) (h : exn -> M A) : M A :=
  fun self =>
    match m self with
    | (Raise e, self') => h e self'
    | r => r
    end.

(** A method that only reads the instance. *)
Definition reads {A} (f : AssemblyCompiler -> result A) : M A :=
  fun self => (f self, self).

Definition get_current_address : M Z :=
  fun self => (Return (current_address self), self).

Definition set_current_address (a : Z) : M unit :=
  fun self => (Return tt, {| labels := labels self; current_address := a |}).

Definition set_label (name : string) (a : Z) : M unit :=
  fun self =>
    (Return tt,
     {| labels := <[name := a]> (labels self);
        current_address := current_address self |}).

Notation "'do' x <- m ; k" := (bind m (fun x => k))
  (at level 10, x name, m at level 100, k at level 200,
   format "'[v' 'do'  x  <-  m ; '/' k ']'").
Notation "m ;; k" := (bind m (fun _ => k))
  (at level 100, k at level 200, right associativity).

(* ================================================================== *)
(** ** The assembler                                                   *)
(* ================================================================== *)

(** [self.instructions]. *)
Definition instructions : gmap string string :=
  list_to_map
    [ ("NOP", "0000"); ("JMP", "0001"); ("JEQ", "0010"); ("STORE", "0011");
      ("CMP", "0100"); ("OUT", "0101"); ("IN", "0110"); ("MOV", "0111");
      ("HALT", "1000"); ("MOVE_UP", "1001"); ("MOVE_DOWN", "1010");
      ("SCORE_INCREMENT", "1011"); ("SPAWN_OBSTACLE", "1100");
      ("GAME_OVER", "1101"); ("START_GAME", "1110");
      ("TITLE_SCREEN", "1111") ].

(** The three literal lists tested in [second_pass]. *)
Definition no_argument : list string :=
  [ "NOP"; "HALT"; "MOVE_UP"; "MOVE_DOWN"; "SCORE_INCREMENT"; "SPAWN_FISH";
    "GAME_OVER"; "START_GAME"; "TITLE_SCREEN" ].

Definition one_argument : list string := [ "JMP"; "JEQ"; "OUT"; "IN" ].

Definition one_argument_5bit : list string := [ "CMP"; "MOV"; "STORE" ].

(** Truth value of an [Optional[str]]: [None] and [''] are false. *)
Definition truthy (o : option string) : bool :=
  match o with
  | Some s => negb (is_empty s)
  | None => false
  end.

(** The first statement of [parse_line]: the text before the first
    semicolon, without surrounding blanks. *)
Definition strip_comment (line : string) : string :=
  strip isspace (fst (partition ";" line)).

(** The label test of [parse_line]: with a colon present, the text before
    the first colon is the label and the text after it remains. *)
Definition split_label (line : string) : option string * string :=
  match partition ":" line with
  | (before, Some after) => (Some (strip isspace before), strip isspace after)
  | (_, None) => (None, line)
  end.

(** [parse_line]: label, instruction and arguments of one line.  The
    remaining text is stripped and not empty when it is split, so it has
    a first token ([parts[0]] exists); the branch for no token is never
    taken. *)
Definition parse_line (line : string)
  : option string * option string * list string :=
  let line := strip_comment line in
  if is_empty line then (None, None, [])
  else
    let '(label, line) := split_label line in
    if is_empty line then (label, None, [])
    else
      match split line with
      | [] => (label, None, [])
      | instruction :: rest =>
          (label, Some (upper instruction), map (strip (is_char ",")) rest)
      end.

Definition in_range (val : Z) : bool := (0 <=? val) && (val <=? 31).

(** [int(s, base)] as a call that may raise; the message of the
    built-in shows at most 200 characters of [repr(s)]. *)
Definition int_call (base : Z) (s : string) : result Z :=
  match int base s with
  | Some v => Return v
  | None =>
      Raise (ValueError ("invalid literal for int() with base "
                         +:+ str base +:+ ": " +:+ slice_to 200 (repr s)))
  end.

(** The body of a [try] of [resolve_argument]: parse in the given base,
    return the five bits when in range, raise the range error
    otherwise. *)
Definition literal_attempt (base : Z) (kind arg : string) : result string :=
  match int_call base arg with
  | Return val =>
      if in_range val then Return (format_05b val)
      else Raise (ValueError (kind +:+ " value " +:+ arg
                              +:+ " out of range (0-31)"))
  | Raise e => Raise e
  end.

(** [resolve_argument]: label, then hexadecimal, binary, decimal. *)
Definition resolve_argument (self : AssemblyCompiler) (arg : string)
  : result string :=
  match labels self !! arg with
  | Some addr => Return (format_05b addr)
  | None =>
      if startswith "0x" arg || startswith "0X" arg then
        except_ValueError (literal_attempt 16 "Hex" arg)
          (fun _ => Raise (ValueError ("Invalid hex number: " +:+ arg)))
      else if startswith "0b" arg || startswith "0B" arg then
        except_ValueError (literal_attempt 2 "Binary" arg)
          (fun _ => Raise (ValueError ("Invalid binary number: " +:+ arg)))
      else
        except_ValueError (literal_attempt 10 "Decimal" arg)
          (fun _ => Raise (ValueError ("Cannot resolve argument: " +:+ arg)))
  end.

(** The [ORG] branch shared by both passes: exactly one argument,
    resolved and read back as a number, becomes the address counter. *)
Definition org_directive (args : list string) : M unit :=
  match args with
  | [arg] =>
      do bits <- reads (fun self => resolve_argument self arg);
      do addr <- reads (fun _ => int_call 2 bits);
      set_current_address addr
  | _ => raise (ValueError "ORG directive requires exactly one argument")
  end.

(** One iteration of the loop of [first_pass]. *)
Definition first_pass_line (line : string) : M unit :=
  let '(label, instruction, args) := parse_line line in
  if bool_decide (instruction = Some "ORG") then org_directive args
  else
    (if truthy label then
       do addr <- get_current_address;
       set_label (default "" label) addr
     else ret tt);;
    (if truthy instruction && negb (bool_decide (instruction = Some "ORG"))
     then
       do addr <- get_current_address;
       set_current_address (addr + 1)
     else ret tt).

Fixpoint first_pass_loop (lines : list string) : M unit :=
  match lines with
  | [] => ret tt
  | line :: rest => first_pass_line line;; first_pass_loop rest
  end.

Definition first_pass (lines : list string) : M unit :=
  set_current_address 0;; first_pass_loop lines.

(** The body of a one-argument branch of [second_pass]. *)
Definition encode_one_argument (instruction opcode : string)
    (args : list string) (machine_code : list (Z * string))
  : M (list (Z * string)) :=
  match args with
  | [arg] =>
      do arg_bits <- reads (fun self => resolve_argument self arg);
      do addr <- get_current_address;
      ret (machine_code ++ [(addr, opcode +:+ arg_bits)])
  | _ => raise (ValueError (instruction +:+ " requires exactly 1 argument"))
  end.

(** The body of the [try] of [second_pass] for one line; the result is
    [machine_code] after the iteration. *)
Definition second_pass_line (line : string) (machine_code : list (Z * string))
  : M (list (Z * string)) :=
  let '(label, instruction, args) := parse_line line in
  if bool_decide (instruction = Some "ORG") then
    org_directive args;; ret machine_code
  else if negb (truthy instruction) || bool_decide (instruction = Some "ORG")
  then ret machine_code
  else
    let instruction := default "" instruction in
    match instructions !! instruction with
    | None => raise (ValueError ("Unknown instruction: " +:+ instruction))
    | Some opcode =>
        do machine_code <-
          (if bool_decide (instruction ∈ no_argument) then
             match args with
             | [] =>
                 do addr <- get_current_address;
                 ret (machine_code ++ [(addr, opcode +:+ "00000")])
             | _ => raise (ValueError (instruction +:+ " takes no arguments"))
             end
           else if bool_decide (instruction ∈ one_argument) then
             encode_one_argument instruction opcode args machine_code
           else if bool_decide (instruction ∈ one_argument_5bit) then
             encode_one_argument instruction opcode args machine_code
           else ret machine_code);
        do addr <- get_current_address;
        set_current_address (addr + 1);;
        ret machine_code
    end.

(** The annotation added by the handler of [second_pass]. *)
Definition line_error (line_num : Z) (e : exn) : exn :=
  Exception ("Error on line " +:+ str line_num +:+ ": " +:+ exn_str e).

Fixpoint second_pass_loop (line_num : Z) (lines : list string)
    (machine_code : list (Z * string)) : M (list (Z * string)) :=
  match lines with
  | [] => ret machine_code
  | line :: rest =>
      do machine_code <-
        try_except (second_pass_line line machine_code)
                   (fun e => raise (line_error line_num e));
      second_pass_loop (line_num + 1) rest machine_code
  end.

Definition second_pass (lines : list string) : M (list (Z * string)) :=
  set_current_address 0;; second_pass_loop 1 lines [].

(** The lines [compile] hands to both passes. *)
Definition source_lines (assembly_code : string) : list string :=
  split_on "010" (strip isspace assembly_code).

Definition compile (assembly_code : string) : M (list (Z * string)) :=
  let lines := source_lines assembly_code in
  first_pass lines;; second_pass lines.

(** [binary_to_hex]: the loop with its accumulator [hex_list]. *)
Fixpoint binary_to_hex_loop (machine_code hex_list : list (Z * string))
  : result (list (Z * string)) :=
  match machine_code with
  | [] => Return hex_list
  | (addr, binary) :: rest =>
      match int_call 2 binary with
      | Return n =>
          let hex_val := zfill 3 (upper (slice_from 2 (hex n))) in
          binary_to_hex_loop rest (hex_list ++ [(addr, hex_val)])
      | Raise e => Raise e
      end
  end.

Definition binary_to_hex (machine_code : list (Z * string))
  : result (list (Z * string)) :=
  binary_to_hex_loop machine_code [].

Definition compile_to_hex (assembly_code : string) : M (list (Z * string)) :=
  do binary_code <- compile assembly_code;
  reads (fun _ => binary_to_hex binary_code).

(** Running a method on a freshly constructed instance. *)
Definition run_fresh {A} (m : M A) : result A := fst (m init).

(* ================================================================== *)
(** ** Derived notions used in the statements                          *)
(* ================================================================== *)

(** The instance as the first pass leaves it when started on [self]. *)
Definition after_first_pass (lines : list string) (self : AssemblyCompiler)
  : AssemblyCompiler :=
  snd (first_pass lines self).

(** Address-counter agreement of the two passes: after every prefix of
    the lines, the counter of the first pass equals the counter of the
    second pass, the latter running with the complete label table. *)
Definition passes_agree (lines : list string) : Prop :=
  forall k : nat, (k <= length lines)%nat ->
    current_address (snd (first_pass (take k lines) init)) =
    current_address
      (snd (second_pass (take k lines) (after_first_pass lines init))).

(** Every [ORG] argument looks up the same in the label table as it
    stands when the first pass reaches the directive and in the table
    the first pass ends with. *)
Definition org_stable (lines : list string) : Prop :=
  forall (k : nat) (line : string) (label : option string) (arg : string),
    lines !! k = Some line ->
    parse_line line = (label, Some "ORG", [arg]) ->
    labels (after_first_pass (take k lines) init) !! arg =
    labels (after_first_pass lines init) !! arg.

(** Every line that defines a label and carries an instruction is placed
    where the first pass said: the address [a] the first pass records
    for the label on reaching the line is the address of the word the
    second pass appends for it, right after the words [mc_pre] of the
    lines before; [SPAWN_OBSTACLE] alone contributes no word. *)
Definition labelled_lines_placed (lines : list string)
    (mc : list (Z * string)) : Prop :=
  forall (pre post : list string) (line label instruction : string)
         (args : list string),
    lines = pre ++ line :: post ->
    parse_line line = (Some label, Some instruction, args) ->
    label <> "" -> instruction <> "ORG" ->
    exists (a : Z) (mc_pre out mc_post : list (Z * string)),
      current_address (after_first_pass pre init) = a
      /\ labels (after_first_pass (pre ++ [line]) init) !! label = Some a
      /\ fst (second_pass pre (after_first_pass lines init)) = Return mc_pre
      /\ mc = mc_pre ++ out ++ mc_post
      /\ ((instruction = "SPAWN_OBSTACLE" /\ out = [])
          \/ exists w, out = [(a, w)]).

(** A string of binary digits. *)
Fixpoint all_chars (p : ascii -> bool) (s : string) : bool :=
  match s with
  | "" => true
  | String c r => p c && all_chars p r
  end.

Definition is_bit (c : ascii) : bool := is_char "0" c || is_char "1" c.

Definition is_upper_hex (c : ascii) : bool :=
  let n := ord c in
  ((48 <=? n) && (n <=? 57)) || ((65 <=? n) && (n <=? 70)).

Definition newline : string := String "010" "".

(** The last character exists and satisfies [p]. *)
Fixpoint last_satisfies (p : ascii -> bool) (s : string) : bool :=
  match s with
  | "" => false
  | String c "" => p c
  | String _ r => last_satisfies p r
  end.

(** [core] is [raw] without the commas at its two ends: only commas were
    removed, and none is left at either end. *)
Definition commas_stripped (raw core : string) : Prop :=
  (exists a b : string,
      raw = a +:+ core +:+ b
      /\ all_chars (is_char ",") a = true
      /\ all_chars (is_char ",") b = true)
  /\ first_satisfies (is_char ",") core = false
  /\ last_satisfies (is_char ",") core = false.

(** A token of [str.split()]: not empty and free of blanks. *)
Definition is_token (t : string) : Prop :=
  t <> "" /\ all_chars (fun c => negb (isspace c)) t = true.

(** Value of a string of binary digits read after the prefix [acc]. *)
Fixpoint bits_value (acc : Z) (s : string) : Z :=
  match s with
  | "" => acc
  | String c r => bits_value (acc * 2 + (if is_char "1" c then 1 else 0)) r
  end.

(** No negative address in the instance. *)
Definition nonneg_state (self : AssemblyCompiler) : Prop :=
  0 <= current_address self
  /\ map_Forall (fun (_ : string) (a : Z) => 0 <= a) (labels self).

(** The instance with its address counter replaced. *)
Definition at_address (self : AssemblyCompiler) (a : Z) : AssemblyCompiler :=
  {| labels := labels self; current_address := a |}.

(** All strings of [n] binary digits. *)
Fixpoint bit_strings (n : nat) : list string :=
  match n with
  | O => [""]
  | S k => flat_map (fun s => [String "0" s; String "1" s]) (bit_strings k)
  end.

(** What [binary_to_hex] owes for one entry: the address is kept, the
    word becomes three upper-case hexadecimal digits of the same value. *)
Definition hex_entry_ok (p q : Z * string) : Prop :=
  fst q = fst p /\
  String.length (snd q) = 3%nat /\
  all_chars is_upper_hex (snd q) = true /\
  exists n : Z, int 2 (snd p) = Some n /\ int 16 (snd q) = Some n.

Definition hex_entry_check (b : string) : bool :=
  match int 2 b with
  | Some n =>
      let h := zfill 3 (upper (slice_from 2 (hex n))) in
      bool_decide (String.length h = 3%nat)
      && all_chars is_upper_hex h
      && bool_decide (int 16 h = Some n)
  | None => false
  end.

#[global] Instance exn_eq_dec : EqDecision exn.
Proof. solve_decision. Defined.

#[global] Instance result_eq_dec {A} `{EqDecision A} : EqDecision (result A).
Proof. solve_decision. Defined.

(** The three spellings of the operand [v] after the mnemonic [m]
    compile to the one word [opcode ++ format(v, '05b')] at address 0. *)
Definition literal_forms_check (m : string) (v : Z) : bool :=
  match instructions !! m with
  | Some opcode =>
      let expected := Return [(0, opcode +:+ format_05b v)] in
      bool_decide (run_fresh (compile (m +:+ " " +:+ str v)) = expected)
      && bool_decide (run_fresh (compile (m +:+ " " +:+ hex v)) = expected)
      && bool_decide (run_fresh (compile (m +:+ " " +:+ bin v)) = expected)
  | None => false
  end.

(* ================================================================== *)
(** ** Further notions, for the properties beyond the claims           *)
(* ================================================================== *)

(** The error [resolve_argument] ends with when a token that is not a
    label cannot be read or falls outside 0..31. *)
Definition resolve_failure (arg : string) : exn :=
  if startswith "0x" arg || startswith "0X" arg
  then ValueError ("Invalid hex number: " +:+ arg)
  else if startswith "0b" arg || startswith "0B" arg
  then ValueError ("Invalid binary number: " +:+ arg)
  else ValueError ("Cannot resolve argument: " +:+ arg).

(** A line without text before its comment. *)
Definition blank_line (line : string) : Prop := strip_comment line = "".

(** A line for which a successful second pass appends a word: it carries
    an instruction other than [ORG] and [SPAWN_OBSTACLE]. *)
Definition emits_word (line : string) : bool :=
  match parse_line line with
  | (_, Some instruction, _) =>
      negb (bool_decide (instruction = "ORG"))
      && negb (bool_decide (instruction = "SPAWN_OBSTACLE"))
  | _ => false
  end.

(** A line that carries the [ORG] directive. *)
Definition is_org_line (line : string) : bool :=
  bool_decide (snd (fst (parse_line line)) = Some "ORG").

(** A line on which the first pass records the label [name]. *)
Definition defines_label (name line : string) : Prop :=
  fst (fst (parse_line line)) = Some name
  /\ snd (fst (parse_line line)) <> Some "ORG".

(** A machine word as the passes build it: binary digits, at least the
    four of the opcode and five of the operand. *)
Definition word_ok (w : string) : Prop :=
  all_chars is_bit w = true /\ (9 <= String.length w)%nat.

(** Every recorded label address fits the five-bit operand. *)
Definition labels_in_range (self : AssemblyCompiler) : Prop :=
  map_Forall (fun (_ : string) (a : Z) => 0 <= a <= 31) (labels self).

(** The messages a line of the second pass can fail with. *)
Definition second_pass_line_error (e : exn) : Prop :=
  e = ValueError "ORG directive requires exactly one argument"
  \/ (exists arg, e = resolve_failure arg)
  \/ (exists m, e = ValueError ("Unknown instruction: " +:+ m))
  \/ (exists m, e = ValueError (m +:+ " takes no arguments"))
  \/ (exists m, e = ValueError (m +:+ " requires exactly 1 argument")).

(** Addresses that go up: each is at least [lo] and larger than the one
    before it. *)
Fixpoint ascending (lo : Z) (l : list Z) : Prop :=
  match l with
  | [] => True
  | a :: r => lo <= a /\ ascending (a + 1) r
  end.

(** A reading of numerals that owes nothing to [int]: the value of a
    digit is its place in a table of digits, and a numeral is read digit
    by digit from the left. *)
Fixpoint position (c : ascii) (digits : string) (i : Z) : option Z :=
  match digits with
  | "" => None
  | String d r => if bool_decide (c = d) then Some i else position c r (i + 1)
  end.

Definition digit_in_table (c : ascii) : option Z :=
  match position c "0123456789abcdef" 0 with
  | Some v => Some v
  | None => position c "ABCDEF" 10
  end.

Fixpoint numeral_value (base acc : Z) (s : string) : Z :=
  match s with
  | "" => acc
  | String c r =>
      numeral_value base (acc * base + default 0 (digit_in_table c)) r
  end.

Definition is_digit_below (base : Z) (c : ascii) : bool :=
  match digit_in_table c with
  | Some v => v <? base
  | None => false
  end.

(** What [binary_to_hex] owes for one entry, with the values of the
    nine bits and of the three hexadecimal digits read from the table of
    digits. *)
Definition hex_entry_exact (p q : Z * string) : Prop :=
  hex_entry_ok p q
  /\ numeral_value 16 0 (snd q) = numeral_value 2 0 (snd p).

Definition hex_entry_exact_check (b : string) : bool :=
  match int 2 b with
  | Some n =>
      bool_decide (numeral_value 16 0 (zfill 3 (upper (slice_from 2 (hex n))))
                   = numeral_value 2 0 b)
  | None => false
  end.

(** [toks] are the words of [s]: [s] is made of blanks, then the first
    word, which has no blank in it and ends where [s] ends or a blank
    follows, then a text of which the other words are the words. *)
Fixpoint tokenizes (s : string) (toks : list string) : Prop :=
  match toks with
  | [] => all_chars isspace s = true
  | t :: ts =>
      exists ws rest : string,
        s = ws +:+ t +:+ rest
        /\ all_chars isspace ws = true
        /\ is_token t
        /\ (rest = "" \/ first_satisfies isspace rest = true)
        /\ tokenizes rest ts
  end.

Definition is_lower (c : ascii) : bool :=
  let n := ord c in (97 <=? n) && (n <=? 122).

(** [up] is [raw] in upper case: same length, each letter from [a] to
    [z] replaced by the capital 32 code points below it, every other
    character kept. *)
Fixpoint upper_cased (raw up : string) : Prop :=
  match raw, up with
  | "", "" => True
  | String c r, String d r' =>
      (if is_lower c then ord d = ord c - 32 else d = c) /\ upper_cased r r'
  | _, _ => False
  end.

(** The spellings of a literal operand: the prefix written before the
    digits, the base the digits are read in, and the error a literal of
    that spelling ends with. *)
Inductive literal_kind : Type :=
  | Decimal
  | Hexadecimal (capital : bool)
  | Binary (capital : bool).

Definition literal_prefix (k : literal_kind) : string :=
  match k with
  | Decimal => ""
  | Hexadecimal false => "0x"
  | Hexadecimal true => "0X"
  | Binary false => "0b"
  | Binary true => "0B"
  end.

Definition literal_radix (k : literal_kind) : Z :=
  match k with Decimal => 10 | Hexadecimal _ => 16 | Binary _ => 2 end.

Definition literal_error (k : literal_kind) (arg : string) : exn :=
  match k with
  | Decimal => ValueError ("Cannot resolve argument: " +:+ arg)
  | Hexadecimal _ => ValueError ("Invalid hex number: " +:+ arg)
  | Binary _ => ValueError ("Invalid binary number: " +:+ arg)
  end.

(** The operand that the passes resolve on a line: the only argument of
    an [ORG] directive or of an instruction that takes one argument. *)
Definition resolved_operand (line arg : string) : Prop :=
  exists label instruction,
    parse_line line = (label, Some instruction, [arg])
    /\ (instruction = "ORG" \/ instruction ∈ one_argument
        \/ instruction ∈ one_argument_5bit).

(** The names that the lines use as such operands. *)
Definition operand_of (lines : list string) (arg : string) : Prop :=
  exists line, line ∈ lines /\ resolved_operand line arg.

(** Two instances with the same address counter and the same entry in
    their label tables for every name in [names]. *)
Definition agree_on (names : string -> Prop)
    (a b : AssemblyCompiler) : Prop :=
  current_address a = current_address b
  /\ forall name, names name -> labels a !! name = labels b !! name.

(** Some line of [lines] records the label [name] in the first pass. *)
Definition defined_by (lines : list string) (name : string) : Prop :=
  name <> "" /\ exists line, line ∈ lines /\ defines_label name line.

(** A line without instruction: blank, comment only, or a label alone. *)
Definition no_instruction (line : string) : Prop :=
  snd (fst (parse_line line)) = None.

(* ================================================================== *)
(** ** Proof support                                                   *)
(* ================================================================== *)

(** Decide the closed tests of [second_pass_line] by evaluation. *)
Ltac closed_tests :=
  repeat match goal with
  | |- context [bool_decide ?P] =>
      let b := eval vm_compute in (bool_decide P) in
      match b with
      | true => change (bool_decide P) with true
      | false => change (bool_decide P) with false
      end
  | |- context [truthy ?o] =>
      let b := eval vm_compute in (truthy o) in
      match b with
      | true => change (truthy o) with true
      | false => change (truthy o) with false
      end
  | |- context [instructions !! ?i] =>
      let o := eval vm_compute in (instructions !! i) in
      match o with
      | Some _ => change (instructions !! i) with o
      | None => change (instructions !! i) with o
      end
  end;
  cbn [negb orb andb].

(* ------------------------------------------------------------------ *)
(** *** Nine-bit words                                                  *)
(* ------------------------------------------------------------------ *)

Lemma is_bit_cases (c : ascii) :
  is_bit c = true -> c = "0"%char \/ c = "1"%char.
Proof.
  unfold is_bit, is_char. intros H.
  apply orb_true_iff in H as [H | H]; apply bool_decide_eq_true in H; auto.
Qed.

Lemma bit_strings_complete (s : string) :
  all_chars is_bit s = true -> s ∈ bit_strings (String.length s).
Proof.
  induction s as [| c r IH]; simpl; intros H.
  - apply list_elem_of_singleton. reflexivity.
  - apply andb_true_iff in H as [Hc Hr].
    apply list_elem_of_In, in_flat_map. exists r. split.
    + apply list_elem_of_In. auto.
    + destruct (is_bit_cases c Hc) as [-> | ->]; simpl; auto.
Qed.

Lemma hex_entry_check_all :
  forallb hex_entry_check (bit_strings 9) = true.
Proof. vm_compute. reflexivity. Qed.

Lemma hex_entry_check_9bit (b : string) :
  String.length b = 9%nat -> all_chars is_bit b = true ->
  hex_entry_check b = true.
Proof.
  intros Hlen Hbits.
  pose proof (bit_strings_complete b Hbits) as Hin. rewrite Hlen in Hin.
  apply list_elem_of_In in Hin.
  exact (proj1 (forallb_forall _ _) hex_entry_check_all b Hin).
Qed.

Lemma binary_to_hex_loop_9bit (machine_code hex_list : list (Z * string)) :
  Forall (fun p => String.length (snd p) = 9%nat
                   /\ all_chars is_bit (snd p) = true) machine_code ->
  exists out,
    binary_to_hex_loop machine_code hex_list = Return (hex_list ++ out)
    /\ Forall2 hex_entry_ok machine_code out.
Proof.
  revert hex_list.
  induction machine_code as [| [addr b] rest IH]; intros acc Hall.
  - exists []. simpl. rewrite app_nil_r. split; constructor.
  - apply Forall_cons in Hall as [[Hlen Hbits] Hrest]. simpl in Hlen, Hbits.
    pose proof (hex_entry_check_9bit b Hlen Hbits) as Hchk.
    unfold hex_entry_check in Hchk.
    destruct (int 2 b) as [n |] eqn:Hint; [| discriminate].
    apply andb_true_iff in Hchk as [Hchk H16].
    apply andb_true_iff in Hchk as [H3 Hup].
    apply bool_decide_eq_true in H3, H16.
    destruct (IH (acc ++ [(addr, zfill 3 (upper (slice_from 2 (hex n))))]) Hrest)
      as (out & Hloop & Hout).
    exists ((addr, zfill 3 (upper (slice_from 2 (hex n)))) :: out).
    split.
    + cbn [binary_to_hex_loop]. unfold int_call. rewrite Hint, Hloop.
      rewrite <- app_assoc. reflexivity.
    + constructor; [| exact Hout].
      unfold hex_entry_ok; simpl. repeat split; auto.
      exists n. auto.
Qed.

(* ------------------------------------------------------------------ *)
(** *** Stripping and splitting                                         *)
(* ------------------------------------------------------------------ *)

Lemma append_nil (s : string) : "" +:+ s = s.
Proof. reflexivity. Qed.

Lemma append_cons (c : ascii) (a b : string) :
  String c a +:+ b = String c (a +:+ b).
Proof. reflexivity. Qed.

Lemma append_empty_r (s : string) : s +:+ "" = s.
Proof. induction s; rewrite ?append_cons, ?append_nil; congruence. Qed.

Lemma append_assoc (a b c : string) : (a +:+ b) +:+ c = a +:+ (b +:+ c).
Proof. induction a; rewrite ?append_cons, ?append_nil; congruence. Qed.

Lemma lstrip_decompose (p : ascii -> bool) (s : string) :
  exists a, s = a +:+ lstrip p s /\ all_chars p a = true.
Proof.
  induction s as [| c r (a & Ha & Hp)]; simpl.
  - exists "". auto.
  - destruct (p c) eqn:Hc.
    + exists (String c a). rewrite append_cons. simpl. rewrite Hc, Hp.
      split; [congruence | reflexivity].
    + exists "". auto.
Qed.

Lemma rstrip_decompose (p : ascii -> bool) (s : string) :
  exists b, s = rstrip p s +:+ b /\ all_chars p b = true.
Proof.
  induction s as [| c r (b & Hb & Hp)]; simpl.
  - exists "". auto.
  - destruct (p c) eqn:Hc; simpl.
    + destruct (rstrip p r) eqn:Hr; simpl.
      * exists (String c b). rewrite append_nil in *. simpl.
        rewrite Hc, Hp. split; [congruence | reflexivity].
      * exists b. rewrite append_cons. split; [congruence | assumption].
    + exists b. rewrite append_cons. split; [congruence | assumption].
Qed.

Lemma lstrip_first (p : ascii -> bool) (s : string) :
  first_satisfies p (lstrip p s) = false.
Proof.
  induction s as [| c r IH]; simpl; auto.
  destruct (p c) eqn:Hc; simpl; auto.
Qed.

Lemma rstrip_first (p : ascii -> bool) (s : string) :
  first_satisfies p s = false -> first_satisfies p (rstrip p s) = false.
Proof.
  destruct s as [| c r]; simpl; auto.
  intros H. rewrite H. simpl. exact H.
Qed.

Lemma rstrip_last (p : ascii -> bool) (s : string) :
  last_satisfies p (rstrip p s) = false.
Proof.
  induction s as [| c r IH]; simpl; auto.
  destruct (rstrip p r) as [| c' r'] eqn:Hr.
  - destruct (p c) eqn:Hc; simpl; auto.
  - rewrite andb_false_r. exact IH.
Qed.

Lemma strip_commas_stripped (t : string) :
  commas_stripped t (strip (is_char ",") t).
Proof.
  unfold commas_stripped, strip. split; [| split].
  - destruct (lstrip_decompose (is_char ",") t) as (a & Ha & Hpa).
    destruct (rstrip_decompose (is_char ",") (lstrip (is_char ",") t))
      as (b & Hb & Hpb).
    exists a, b. split; [| auto].
    rewrite <- Hb. exact Ha.
  - apply rstrip_first, lstrip_first.
  - apply rstrip_last.
Qed.

(** A text whose first character is not a blank has a first token. *)
Lemma split_first_nonblank (s : string) :
  s <> "" -> first_satisfies isspace s = false -> split s <> [].
Proof.
  destruct s as [| c r]; [congruence |]. simpl. intros _ ->.
  destruct r as [| c' r']; [discriminate |].
  destruct (isspace c'); [discriminate |].
  destruct (split (String c' r')); discriminate.
Qed.

Lemma strip_isspace_first (s : string) :
  first_satisfies isspace (strip isspace s) = false.
Proof. apply rstrip_first, lstrip_first. Qed.

Lemma split_tokens (s : string) : Forall is_token (split s).
Proof.
  induction s as [| c r IH]; [constructor |].
  cbn [split]. destruct (isspace c) eqn:Hc; [exact IH |].
  destruct r as [| c' r'].
  - constructor; [| constructor]. split; [discriminate |].
    simpl. rewrite Hc. reflexivity.
  - destruct (isspace c') eqn:Hc'.
    + constructor; [| exact IH]. split; [discriminate |].
      simpl. rewrite Hc. reflexivity.
    + destruct (split (String c' r')) as [| w ws].
      * constructor; [| constructor]. split; [discriminate |].
        simpl. rewrite Hc. reflexivity.
      * apply Forall_cons in IH as [[_ Hw] Hws].
        constructor; [| exact Hws]. split; [discriminate |].
        simpl. rewrite Hc, Hw. reflexivity.
Qed.

Lemma is_empty_true (s : string) : is_empty s = true <-> s = "".
Proof. destruct s; simpl; split; congruence. Qed.

Lemma is_empty_false (s : string) : is_empty s = false <-> s <> "".
Proof. destruct s; simpl; split; congruence. Qed.

(* ------------------------------------------------------------------ *)
(** *** Binary numerals: [int(format(n, '05b'), 2) = n]                 *)
(* ------------------------------------------------------------------ *)

Lemma lstrip_id (p : ascii -> bool) (s : string) :
  first_satisfies p s = false -> lstrip p s = s.
Proof. destruct s as [| c r]; simpl; [reflexivity |]. intros ->. reflexivity. Qed.

Lemma rstrip_id (p : ascii -> bool) (s : string) :
  all_chars (fun c => negb (p c)) s = true -> rstrip p s = s.
Proof.
  induction s as [| c r IH]; simpl; [reflexivity |].
  intros H. apply andb_true_iff in H as [Hc Hr].
  apply negb_true_iff in Hc. rewrite Hc, (IH Hr). reflexivity.
Qed.

Lemma strip_id (p : ascii -> bool) (s : string) :
  all_chars (fun c => negb (p c)) s = true -> strip p s = s.
Proof.
  intros H. unfold strip. rewrite lstrip_id; [apply rstrip_id, H |].
  destruct s as [| c r]; simpl in *; [reflexivity |].
  apply andb_true_iff in H as [Hc _]. apply negb_true_iff in Hc. exact Hc.
Qed.

Lemma all_chars_impl (p q : ascii -> bool) (s : string) :
  (forall c, p c = true -> q c = true) ->
  all_chars p s = true -> all_chars q s = true.
Proof.
  intros Hpq. induction s as [| c r IH]; simpl; [reflexivity |].
  intros H. apply andb_true_iff in H as [Hc Hr].
  rewrite (Hpq c Hc), (IH Hr). reflexivity.
Qed.

Lemma all_chars_app (p : ascii -> bool) (a b : string) :
  all_chars p (a +:+ b) = all_chars p a && all_chars p b.
Proof.
  induction a as [| c r IH]; rewrite ?append_nil, ?append_cons; simpl.
  - reflexivity.
  - rewrite IH, andb_assoc. reflexivity.
Qed.

Lemma scan_bits (s : string) :
  forall (seen : bool) (acc : Z),
    all_chars is_bit s = true ->
    seen = true \/ s <> "" ->
    scan_digits 2 false seen acc s = Some (bits_value acc s).
Proof.
  induction s as [| c r IH]; intros seen acc Hbits Hne.
  - destruct Hne as [-> | Hne]; [reflexivity | congruence].
  - simpl in Hbits. apply andb_true_iff in Hbits as [Hc Hr].
    destruct (is_bit_cases c Hc) as [-> | ->];
      cbn [scan_digits bits_value];
      change (is_char "_" _) with false; cbv iota;
      [ change (digit_value "0") with (Some 0);
        change (is_char "1" "0") with false
      | change (digit_value "1") with (Some 1);
        change (is_char "1" "1") with true ];
      cbv iota; change (_ <? 2) with true; cbv iota;
      apply IH; auto.
Qed.

Lemma int_bits (s : string) :
  all_chars is_bit s = true -> s <> "" -> int 2 s = Some (bits_value 0 s).
Proof.
  intros Hbits Hne. unfold int.
  rewrite strip_id.
  2:{ apply (all_chars_impl is_bit); [| exact Hbits].
      intros c Hc. destruct (is_bit_cases c Hc) as [-> | ->]; reflexivity. }
  pose proof (scan_bits s false 0 Hbits (or_intror Hne)) as Hscan.
  assert (Hsign : first_satisfies (is_char "+") s = false
                  /\ first_satisfies (is_char "-") s = false
                  /\ first_satisfies (is_char "_") s = false
                  /\ skip_prefix 2 s = s).
  { destruct s as [| c r]; [congruence |].
    simpl in Hbits. apply andb_true_iff in Hbits as [Hc Hr].
    destruct (is_bit_cases c Hc) as [-> | ->]; [| repeat split].
    destruct r as [| c' r']; [repeat split |].
    simpl in Hr. apply andb_true_iff in Hr as [Hc' _].
    destruct (is_bit_cases c' Hc') as [-> | ->]; repeat split. }
  destruct Hsign as (-> & -> & Hus & ->). rewrite Hus, Hscan.
  destruct (bits_value 0 s); reflexivity.
Qed.

Lemma bits_value_zeros (k : nat) (s : string) :
  bits_value 0 (zeros k +:+ s) = bits_value 0 s.
Proof.
  induction k as [| k IH]; simpl; rewrite ?append_nil, ?append_cons;
    [reflexivity |].
  cbn [bits_value]. exact IH.
Qed.

Lemma bits_value_pos_bin (p : positive) (rest : string) :
  bits_value 0 (pos_bin p +:+ rest) = bits_value (Zpos p) rest.
Proof.
  revert rest. induction p as [q IH | q IH |]; intros rest; cbn [pos_bin].
  - rewrite append_assoc, IH, append_cons, append_nil. cbn [bits_value].
    change (is_char "1" "1") with true. cbv iota. f_equal. lia.
  - rewrite append_assoc, IH, append_cons, append_nil. cbn [bits_value].
    change (is_char "1" "0") with false. cbv iota. f_equal. lia.
  - reflexivity.
Qed.

Lemma all_bits_zeros (k : nat) : all_chars is_bit (zeros k) = true.
Proof. induction k; simpl; auto. Qed.

Lemma all_bits_pos_bin (p : positive) : all_chars is_bit (pos_bin p) = true.
Proof.
  induction p as [q IH | q IH |]; cbn [pos_bin];
    rewrite ?all_chars_app, ?IH; reflexivity.
Qed.

Lemma append_nonempty_r (a b : string) : b <> "" -> a +:+ b <> "".
Proof.
  destruct a; rewrite ?append_nil, ?append_cons; [auto | discriminate].
Qed.

Lemma pos_bin_nonempty (p : positive) : pos_bin p <> "".
Proof.
  destruct p; cbn [pos_bin]; try discriminate;
    apply append_nonempty_r; discriminate.
Qed.

(** Reading back the binary rendering of an address gives the address. *)
Lemma int_format_05b (n : Z) : 0 <= n -> int 2 (format_05b n) = Some n.
Proof.
  intros Hn. unfold format_05b.
  destruct (n <? 0) eqn:Hneg; [apply Z.ltb_lt in Hneg; lia |].
  destruct n as [| p | p]; [reflexivity | | lia].
  cbn [bin_digits]. rewrite int_bits.
  - rewrite bits_value_zeros.
    rewrite <- (append_empty_r (pos_bin p)), bits_value_pos_bin.
    reflexivity.
  - rewrite all_chars_app, all_bits_zeros, all_bits_pos_bin. reflexivity.
  - apply append_nonempty_r, pos_bin_nonempty.
Qed.

(** An address of at most 31 is rendered on exactly five digits. *)
Lemma format_05b_length (n : Z) :
  0 <= n <= 31 -> String.length (format_05b n) = 5%nat.
Proof.
  intros [Hlo Hhi].
  destruct n as [| p | p]; [reflexivity | | lia].
  do 5 (try destruct p as [p | p |]); try reflexivity; lia.
Qed.

(* ------------------------------------------------------------------ *)
(** *** Operand resolution                                              *)
(* ------------------------------------------------------------------ *)

Lemma resolve_argument_labels (self self' : AssemblyCompiler) (arg : string) :
  labels self !! arg = labels self' !! arg ->
  resolve_argument self arg = resolve_argument self' arg.
Proof. unfold resolve_argument. intros ->. reflexivity. Qed.

Lemma literal_attempt_Return (base : Z) (kind arg bits : string) :
  literal_attempt base kind arg = Return bits ->
  exists v, int base arg = Some v /\ in_range v = true /\ bits = format_05b v.
Proof.
  unfold literal_attempt, int_call.
  destruct (int base arg) as [v |]; [| discriminate].
  destruct (in_range v) eqn:Hr; [| discriminate].
  intros [= <-]. eauto.
Qed.

Lemma literal_attempt_Raise (base : Z) (kind arg : string) (e : exn) :
  literal_attempt base kind arg = Raise e -> exists m, e = ValueError m.
Proof.
  unfold literal_attempt, int_call.
  destruct (int base arg) as [v |].
  - destruct (in_range v); [discriminate |]. intros [= <-]. eauto.
  - intros [= <-]. eauto.
Qed.

Lemma except_ValueError_Return {A} (r : result A) (h : string -> result A)
    (a : A) :
  (forall m, h m <> Return a) ->
  except_ValueError r h = Return a -> r = Return a.
Proof.
  intros Hh. destruct r as [a' | [m | m]]; simpl; auto.
  intros H. destruct (Hh m H).
Qed.

Lemma resolve_argument_Return (self : AssemblyCompiler) (arg bits : string) :
  resolve_argument self arg = Return bits ->
  exists v, bits = format_05b v
            /\ (labels self !! arg = Some v
                \/ (labels self !! arg = None /\ in_range v = true)).
Proof.
  unfold resolve_argument.
  destruct (labels self !! arg) as [addr |] eqn:Hl.
  - intros [= <-]. eauto.
  - intros H.
    assert (exists base kind, literal_attempt base kind arg = Return bits)
      as (base & kind & Hlit).
    { destruct (_ || _); [| destruct (_ || _)];
        apply except_ValueError_Return in H; eauto; discriminate. }
    apply literal_attempt_Return in Hlit as (v & _ & Hr & ->). eauto.
Qed.

(** The three messages [resolve_argument] can fail with. *)
Lemma resolve_argument_Raise (self : AssemblyCompiler) (arg : string) (e : exn) :
  resolve_argument self arg = Raise e ->
  e = ValueError ("Invalid hex number: " +:+ arg)
  \/ e = ValueError ("Invalid binary number: " +:+ arg)
  \/ e = ValueError ("Cannot resolve argument: " +:+ arg).
Proof.
  unfold resolve_argument.
  destruct (labels self !! arg); [discriminate |].
  destruct (_ || _); [| destruct (_ || _)];
    (destruct (literal_attempt _ _ arg) as [b | e0] eqn:Hlit;
     [ discriminate
     | apply literal_attempt_Raise in Hlit as [m ->]; simpl;
       intros [= <-]; auto ]).
Qed.

(* ------------------------------------------------------------------ *)
(** *** One line of either pass                                         *)
(* ------------------------------------------------------------------ *)

Ltac run_monad :=
  unfold bind, ret, raise, reads, try_except, get_current_address,
    set_current_address, set_label, at_address in *;
  cbv beta in *.

Lemma org_directive_Return (args : list string) (u : unit)
    (self self' : AssemblyCompiler) :
  org_directive args self = (Return u, self') ->
  exists arg bits v,
    args = [arg] /\ resolve_argument self arg = Return bits
    /\ int 2 bits = Some v /\ self' = at_address self v.
Proof.
  unfold org_directive.
  destruct args as [| arg [| ? ?]]; try (run_monad; discriminate).
  run_monad.
  destruct (resolve_argument self arg) as [bits | e] eqn:Hres;
    [| discriminate].
  unfold int_call. destruct (int 2 bits) as [v |] eqn:Hint; [| discriminate].
  intros [= _ <-]. exists arg, bits, v. auto.
Qed.

Lemma org_directive_labels (args : list string) (r : result unit)
    (self self' : AssemblyCompiler) :
  org_directive args self = (r, self') -> labels self' = labels self.
Proof.
  unfold org_directive.
  destruct args as [| arg [| ? ?]]; run_monad; try (intros [= _ <-]; reflexivity).
  destruct (resolve_argument self arg) as [bits | e];
    [| intros [= _ <-]; reflexivity].
  destruct (int_call 2 bits); intros [= _ <-]; reflexivity.
Qed.

(** With the same lookup of its argument, [ORG] acts alike on two
    instances. *)
Lemma org_directive_agree (args : list string) (u u' : unit)
    (s1 s1' s2 s2' : AssemblyCompiler) :
  (forall arg, args = [arg] -> labels s1 !! arg = labels s2 !! arg) ->
  org_directive args s1 = (Return u, s1') ->
  org_directive args s2 = (Return u', s2') ->
  current_address s1' = current_address s2'.
Proof.
  intros Hl H1 H2.
  apply org_directive_Return in H1 as (a1 & b1 & v1 & -> & Hr1 & Hi1 & ->).
  apply org_directive_Return in H2 as (a2 & b2 & v2 & [= <-] & Hr2 & Hi2 & ->).
  rewrite (resolve_argument_labels s1 s2 a1 (Hl a1 eq_refl)) in Hr1.
  simpl. congruence.
Qed.

Lemma upper_nonempty (s : string) : s <> "" -> upper s <> "".
Proof. destruct s; simpl; [congruence | discriminate]. Qed.

(** A parsed instruction is never the empty string, and the branch of
    [parse_line] for a text without token is never taken. *)
Lemma parse_line_instruction (line : string) (label : option string)
    (instruction : string) (args : list string) :
  parse_line line = (label, Some instruction, args) -> instruction <> "".
Proof.
  unfold parse_line.
  destruct (is_empty (strip_comment line)); [discriminate |].
  destruct (split_label (strip_comment line)) as [lbl body].
  destruct (is_empty body); [discriminate |].
  pose proof (split_tokens body) as Htok.
  destruct (split body) as [| tok toks]; [discriminate |].
  intros [= _ <- _].
  apply Forall_cons in Htok as [[Hne _] _]. apply upper_nonempty, Hne.
Qed.

Lemma truthy_Some (s : string) : s <> "" -> truthy (Some s) = true.
Proof. destruct s; [congruence | reflexivity]. Qed.

Lemma first_pass_line_org (line : string) (label : option string)
    (args : list string) :
  parse_line line = (label, Some "ORG", args) ->
  first_pass_line line = org_directive args.
Proof. intros H. unfold first_pass_line. rewrite H. reflexivity. Qed.

Lemma first_pass_line_other (line : string) (label instruction : option string)
    (args : list string) (self : AssemblyCompiler) :
  parse_line line = (label, instruction, args) ->
  instruction <> Some "ORG" ->
  first_pass_line line self =
  (Return tt,
   {| labels := if truthy label
                then <[default "" label := current_address self]> (labels self)
                else labels self;
      current_address := if truthy instruction then current_address self + 1
                         else current_address self |}).
Proof.
  intros H Hne. unfold first_pass_line. rewrite H.
  rewrite (bool_decide_eq_false_2 _ Hne). rewrite andb_true_r.
  run_monad. destruct (truthy label), (truthy instruction); simpl;
    try reflexivity; destruct self; reflexivity.
Qed.

Lemma second_pass_line_org (line : string) (label : option string)
    (args : list string) (machine_code : list (Z * string)) :
  parse_line line = (label, Some "ORG", args) ->
  second_pass_line line machine_code = (org_directive args;; ret machine_code).
Proof. intros H. unfold second_pass_line. rewrite H. reflexivity. Qed.

Lemma second_pass_line_skip (line : string) (label instruction : option string)
    (args : list string) (machine_code : list (Z * string))
    (self : AssemblyCompiler) :
  parse_line line = (label, instruction, args) ->
  truthy instruction = false ->
  second_pass_line line machine_code self = (Return machine_code, self).
Proof.
  intros H Ht. unfold second_pass_line. rewrite H.
  destruct (bool_decide (instruction = Some "ORG")) eqn:Horg.
  - apply bool_decide_eq_true in Horg. subst. discriminate.
  - rewrite Ht. reflexivity.
Qed.

Lemma second_pass_line_labels (line : string) (machine_code : list (Z * string))
    (self self' : AssemblyCompiler) (r : result (list (Z * string))) :
  second_pass_line line machine_code self = (r, self') ->
  labels self' = labels self.
Proof.
  unfold second_pass_line.
  destruct (parse_line line) as [[label instruction] args].
  destruct (bool_decide (instruction = Some "ORG")).
  - unfold bind at 1.
    destruct (org_directive args self) as [[u | e] s] eqn:Horg;
      apply org_directive_labels in Horg; unfold ret;
      intros [= _ <-]; exact Horg.
  - destruct (negb (truthy instruction) || false);
      [unfold ret; intros [= _ <-]; reflexivity |].
    destruct (instructions !! default "" instruction) as [opcode |];
      [| unfold raise; intros [= _ <-]; reflexivity].
    unfold encode_one_argument.
    repeat match goal with
    | |- context [if bool_decide ?P then _ else _] => destruct (bool_decide P)
    end;
    destruct args as [| arg [| ? ?]]; run_monad;
    try (intros [= _ <-]; reflexivity);
    destruct (resolve_argument self arg); intros [= _ <-]; reflexivity.
Qed.

(** What a successful iteration of the second pass does for a line that
    carries an instruction: the counter advances by one, and one word is
    appended at the old counter, except for [SPAWN_OBSTACLE]. *)
Lemma second_pass_line_Return (line : string) (label : option string)
    (instruction : string) (args : list string)
    (machine_code machine_code' : list (Z * string))
    (self self' : AssemblyCompiler) :
  parse_line line = (label, Some instruction, args) ->
  instruction <> "ORG" ->
  second_pass_line line machine_code self = (Return machine_code', self') ->
  self' = at_address self (current_address self + 1)
  /\ ((instruction = "SPAWN_OBSTACLE" /\ machine_code' = machine_code)
      \/ exists opcode bits,
           instructions !! instruction = Some opcode
           /\ machine_code' =
              machine_code ++ [(current_address self, opcode +:+ bits)]).
Proof.
  intros Hparse Horg. pose proof (parse_line_instruction _ _ _ _ Hparse) as Hne.
  unfold second_pass_line. rewrite Hparse.
  rewrite bool_decide_eq_false_2 by congruence.
  rewrite (truthy_Some _ Hne). cbn [negb orb].
  change (default "" (Some instruction)) with instruction.
  destruct (instructions !! instruction) as [opcode |] eqn:Hop;
    [| unfold raise; discriminate].
  pose proof Hop as Hin. unfold instructions in Hin.
  apply elem_of_list_to_map_2 in Hin.
  repeat (apply elem_of_cons in Hin as [[= -> ->] | Hin]);
    [.. | apply elem_of_nil in Hin; destruct Hin];
    closed_tests; cbv iota; unfold encode_one_argument;
    destruct args as [| arg [| ? ?]]; run_monad; try discriminate;
    try (destruct (resolve_argument self arg) as [bits |]; [| discriminate]);
    intros [= <- <-]; (split; [reflexivity |]); eauto.
Qed.

(** A line with a one-argument mnemonic and one argument appends the
    opcode followed by the resolved operand, or fails as the resolver
    does. *)
Lemma second_pass_line_one_argument (line : string) (label : option string)
    (instruction arg opcode : string) (machine_code : list (Z * string))
    (self : AssemblyCompiler) :
  parse_line line = (label, Some instruction, [arg]) ->
  instruction ∈ one_argument ++ one_argument_5bit ->
  instructions !! instruction = Some opcode ->
  second_pass_line line machine_code self =
  match resolve_argument self arg with
  | Return bits =>
      (Return (machine_code ++ [(current_address self, opcode +:+ bits)]),
       at_address self (current_address self + 1))
  | Raise e => (Raise e, self)
  end.
Proof.
  intros Hparse Hin Hop. unfold second_pass_line. rewrite Hparse.
  cbn [app one_argument one_argument_5bit] in Hin.
  repeat (apply elem_of_cons in Hin as [-> | Hin]);
    [.. | apply elem_of_nil in Hin; destruct Hin];
    vm_compute in Hop; injection Hop as <-;
    closed_tests; cbv iota; unfold encode_one_argument; run_monad;
    destruct (resolve_argument self arg); reflexivity.
Qed.

Lemma second_pass_line_extends (line : string)
    (machine_code machine_code' : list (Z * string))
    (self self' : AssemblyCompiler) :
  second_pass_line line machine_code self = (Return machine_code', self') ->
  exists out, machine_code' = machine_code ++ out.
Proof.
  destruct (parse_line line) as [[label instruction] args] eqn:Hparse.
  destruct (decide (instruction = Some "ORG")) as [-> | Horg].
  - rewrite (second_pass_line_org _ _ _ _ Hparse). unfold bind, ret.
    destruct (org_directive args self) as [[u | e] s]; [| discriminate].
    intros [= <- _]. exists []. rewrite app_nil_r. reflexivity.
  - destruct (truthy instruction) eqn:Ht.
    + destruct instruction as [ins |]; [| discriminate].
      assert (Hne : ins <> "ORG") by congruence.
      intros H.
      destruct (second_pass_line_Return _ _ _ _ _ _ _ _ Hparse Hne H)
        as [_ [[_ ->] | (opcode & bits & _ & ->)]].
      * exists []. rewrite app_nil_r. reflexivity.
      * eauto.
    + rewrite (second_pass_line_skip _ _ _ _ _ _ Hparse Ht).
      intros [= <- _]. exists []. rewrite app_nil_r. reflexivity.
Qed.

(* ------------------------------------------------------------------ *)
(** *** The loops of the two passes                                     *)
(* ------------------------------------------------------------------ *)

Lemma first_pass_loop_app (l1 l2 : list string) (self : AssemblyCompiler) :
  first_pass_loop (l1 ++ l2) self
  = (first_pass_loop l1;; first_pass_loop l2) self.
Proof.
  revert self. induction l1 as [| line l1 IH]; intros self.
  - reflexivity.
  - cbn [app first_pass_loop]. unfold bind.
    destruct (first_pass_line line self) as [[u | e] s]; [| reflexivity].
    rewrite IH. reflexivity.
Qed.

Lemma first_pass_loop_split (pre post : list string) (line : string)
    (u : unit) (self self' : AssemblyCompiler) :
  first_pass_loop (pre ++ line :: post) self = (Return u, self') ->
  exists sa sb,
    first_pass_loop pre self = (Return tt, sa)
    /\ first_pass_line line sa = (Return tt, sb)
    /\ first_pass_loop post sb = (Return u, self').
Proof.
  rewrite first_pass_loop_app. unfold bind at 1.
  destruct (first_pass_loop pre self) as [[[] | e] sa]; [| discriminate].
  cbn [first_pass_loop]. unfold bind at 1.
  destruct (first_pass_line line sa) as [[[] | e] sb] eqn:Hline;
    [| discriminate].
  intros H. exists sa, sb. auto.
Qed.

Lemma second_pass_loop_app (l1 l2 : list string) (line_num : Z)
    (machine_code : list (Z * string)) (self : AssemblyCompiler) :
  second_pass_loop line_num (l1 ++ l2) machine_code self
  = (do mc <- second_pass_loop line_num l1 machine_code;
     second_pass_loop (line_num + Z.of_nat (length l1)) l2 mc) self.
Proof.
  revert line_num machine_code self.
  induction l1 as [| line l1 IH]; intros n mc self.
  - cbn [app length second_pass_loop]. unfold bind, ret.
    rewrite Z.add_0_r. reflexivity.
  - cbn [app second_pass_loop]. unfold bind.
    destruct (try_except _ _ self) as [[mc1 | e] s]; [| reflexivity].
    rewrite IH. unfold bind.
    replace (n + 1 + Z.of_nat (length l1))
      with (n + Z.of_nat (length (line :: l1))) by (cbn [length]; lia).
    reflexivity.
Qed.

Lemma try_except_Return {A} (m : M A) (h : exn -> M A) (a : A)
    (self self' : AssemblyCompiler) :
  (forall e s, fst (h e s) <> Return a) ->
  try_except m h self = (Return a, self') -> m self = (Return a, self').
Proof.
  intros Hh. unfold try_except.
  destruct (m self) as [[a' | e] s]; [auto |].
  intros H. destruct (Hh e s). rewrite H. reflexivity.
Qed.

Lemma second_pass_loop_split (pre post : list string) (line : string)
    (line_num : Z) (machine_code machine_code' : list (Z * string))
    (self self' : AssemblyCompiler) :
  second_pass_loop line_num (pre ++ line :: post) machine_code self
  = (Return machine_code', self') ->
  exists mc_pre sa mc_line sb,
    second_pass_loop line_num pre machine_code self = (Return mc_pre, sa)
    /\ second_pass_line line mc_pre sa = (Return mc_line, sb)
    /\ second_pass_loop (line_num + Z.of_nat (length pre) + 1) post mc_line sb
       = (Return machine_code', self').
Proof.
  rewrite second_pass_loop_app. unfold bind at 1.
  destruct (second_pass_loop line_num pre machine_code self)
    as [[mc_pre | e] sa]; [| discriminate].
  cbn [second_pass_loop]. unfold bind at 1.
  destruct (try_except _ _ sa) as [[mc_line | e] sb] eqn:Hline;
    [| discriminate].
  apply try_except_Return in Hline; [| intros; discriminate].
  intros H. exists mc_pre, sa, mc_line, sb. auto.
Qed.

Lemma second_pass_loop_labels (lines : list string) (line_num : Z)
    (machine_code : list (Z * string)) (r : result (list (Z * string)))
    (self self' : AssemblyCompiler) :
  second_pass_loop line_num lines machine_code self = (r, self') ->
  labels self' = labels self.
Proof.
  revert line_num machine_code self.
  induction lines as [| line rest IH]; intros n mc self.
  - unfold second_pass_loop, ret. intros [= _ <-]. reflexivity.
  - cbn [second_pass_loop]. unfold bind, try_except, raise.
    destruct (second_pass_line line mc self) as [[mc1 | e] s] eqn:Hline;
      apply second_pass_line_labels in Hline.
    + intros H. apply IH in H. congruence.
    + intros [= _ <-]. exact Hline.
Qed.

Lemma second_pass_loop_extends (lines : list string) (line_num : Z)
    (machine_code machine_code' : list (Z * string))
    (self self' : AssemblyCompiler) :
  second_pass_loop line_num lines machine_code self
  = (Return machine_code', self') ->
  exists out, machine_code' = machine_code ++ out.
Proof.
  revert line_num machine_code self.
  induction lines as [| line rest IH]; intros n mc self.
  - unfold second_pass_loop, ret. intros [= <- _].
    exists []. rewrite app_nil_r. reflexivity.
  - cbn [second_pass_loop]. unfold bind at 1.
    destruct (try_except _ _ self) as [[mc1 | e] s] eqn:Hline;
      [| discriminate].
    apply try_except_Return in Hline; [| intros; discriminate].
    apply second_pass_line_extends in Hline as [out1 ->].
    intros H. apply IH in H as [out2 ->].
    exists (out1 ++ out2). rewrite app_assoc. reflexivity.
Qed.

(** The first pass only adds names to the label table. *)
Lemma first_pass_line_keeps (line : string) (r : result unit)
    (self self' : AssemblyCompiler) (name : string) :
  first_pass_line line self = (r, self') ->
  is_Some (labels self !! name) -> is_Some (labels self' !! name).
Proof.
  destruct (parse_line line) as [[label instruction] args] eqn:Hparse.
  destruct (decide (instruction = Some "ORG")) as [-> | Horg].
  - rewrite (first_pass_line_org _ _ _ Hparse). intros H.
    apply org_directive_labels in H. rewrite H. auto.
  - rewrite (first_pass_line_other _ _ _ _ _ Hparse Horg).
    intros [= _ <-]. cbn [labels]. destruct (truthy label); [| auto].
    intros Hs. rewrite lookup_insert. case_decide; eauto.
Qed.

Lemma first_pass_loop_keeps (lines : list string) (r : result unit)
    (self self' : AssemblyCompiler) (name : string) :
  first_pass_loop lines self = (r, self') ->
  is_Some (labels self !! name) -> is_Some (labels self' !! name).
Proof.
  revert self. induction lines as [| line rest IH]; intros self.
  - unfold first_pass_loop, ret. intros [= _ <-]. auto.
  - cbn [first_pass_loop]. unfold bind.
    destruct (first_pass_line line self) as [[u | e] s] eqn:Hline;
      intros H Hs; pose proof (first_pass_line_keeps _ _ _ _ _ Hline Hs).
    + eapply IH; eauto.
    + injection H as _ <-. assumption.
Qed.

(* ------------------------------------------------------------------ *)
(** *** Addresses are never negative                                    *)
(* ------------------------------------------------------------------ *)

Lemma in_range_bounds (v : Z) : in_range v = true -> 0 <= v <= 31.
Proof. unfold in_range. intros H. apply andb_true_iff in H. lia. Qed.

Lemma org_directive_Raise (args : list string) (e : exn)
    (self self' : AssemblyCompiler) :
  org_directive args self = (Raise e, self') -> self' = self.
Proof.
  unfold org_directive.
  destruct args as [| arg [| ? ?]]; run_monad; try (intros [= _ <-]; reflexivity).
  destruct (resolve_argument self arg) as [bits | e0];
    [| intros [= _ <-]; reflexivity].
  destruct (int_call 2 bits); [discriminate | intros [= _ <-]; reflexivity].
Qed.

(** On an instance without negative address the value [ORG] reads back
    is the resolved one. *)
Lemma org_directive_value (args : list string) (u : unit)
    (self self' : AssemblyCompiler) :
  nonneg_state self ->
  org_directive args self = (Return u, self') ->
  exists arg v,
    args = [arg] /\ resolve_argument self arg = Return (format_05b v)
    /\ 0 <= v /\ self' = at_address self v.
Proof.
  intros [_ Hlab] H.
  apply org_directive_Return in H as (arg & bits & v & -> & Hres & Hint & ->).
  destruct (resolve_argument_Return _ _ _ Hres) as (v' & -> & Hv').
  assert (0 <= v') as Hpos.
  { destruct Hv' as [Hl | [_ Hr]].
    - exact (Hlab _ _ Hl).
    - apply in_range_bounds in Hr. lia. }
  rewrite (int_format_05b v' Hpos) in Hint. injection Hint as <-.
  exists arg, v'. auto.
Qed.

Lemma first_pass_line_nonneg (line : string) (r : result unit)
    (self self' : AssemblyCompiler) :
  nonneg_state self ->
  first_pass_line line self = (r, self') -> nonneg_state self'.
Proof.
  intros Hnn.
  destruct (parse_line line) as [[label instruction] args] eqn:Hparse.
  destruct (decide (instruction = Some "ORG")) as [-> | Horg].
  - rewrite (first_pass_line_org _ _ _ Hparse). destruct r as [u | e]; intros H.
    + apply (org_directive_value _ _ _ _ Hnn) in H as (arg & v & _ & _ & Hv & ->).
      destruct Hnn as [_ Hlab]. split; [exact Hv | exact Hlab].
    + apply org_directive_Raise in H. subst. exact Hnn.
  - rewrite (first_pass_line_other _ _ _ _ _ Hparse Horg).
    intros [= _ <-]. destruct Hnn as [Ha Hlab]. split; cbn.
    + destruct (truthy instruction); lia.
    + destruct (truthy label); [| exact Hlab].
      apply map_Forall_insert_2; assumption.
Qed.

Lemma first_pass_loop_nonneg (lines : list string) (r : result unit)
    (self self' : AssemblyCompiler) :
  nonneg_state self ->
  first_pass_loop lines self = (r, self') -> nonneg_state self'.
Proof.
  revert self. induction lines as [| line rest IH]; intros self Hnn.
  - unfold first_pass_loop, ret. intros [= _ <-]. exact Hnn.
  - cbn [first_pass_loop]. unfold bind.
    destruct (first_pass_line line self) as [[u | e] s] eqn:Hline;
      pose proof (first_pass_line_nonneg _ _ _ _ Hnn Hline) as Hs.
    + apply IH, Hs.
    + intros [= _ <-]. exact Hs.
Qed.

Lemma nonneg_at_zero (self : AssemblyCompiler) :
  map_Forall (fun (_ : string) (a : Z) => 0 <= a) (labels self) ->
  nonneg_state (at_address self 0).
Proof. intros H. split; [cbn; lia | exact H]. Qed.

Lemma nonneg_init : nonneg_state init.
Proof. split; [cbn; lia | apply map_Forall_empty]. Qed.

Lemma first_pass_unfold (lines : list string) (self : AssemblyCompiler) :
  first_pass lines self = first_pass_loop lines (at_address self 0).
Proof. reflexivity. Qed.

Lemma second_pass_unfold (lines : list string) (self : AssemblyCompiler) :
  second_pass lines self = second_pass_loop 1 lines [] (at_address self 0).
Proof. reflexivity. Qed.

Lemma after_first_pass_nonneg (lines : list string) :
  nonneg_state (after_first_pass lines init).
Proof.
  unfold after_first_pass. rewrite first_pass_unfold.
  destruct (first_pass_loop lines (at_address init 0)) as [r s] eqn:H.
  apply (first_pass_loop_nonneg _ _ _ _ nonneg_init H).
Qed.

(** A run of [compile] that returns went through both passes. *)
Lemma compile_Return (code : string) (mc : list (Z * string))
    (self self' : AssemblyCompiler) :
  compile code self = (Return mc, self') ->
  first_pass (source_lines code) self
  = (Return tt, after_first_pass (source_lines code) self)
  /\ second_pass (source_lines code) (after_first_pass (source_lines code) self)
     = (Return mc, self').
Proof.
  unfold compile, after_first_pass. cbv zeta. unfold bind at 1.
  destruct (first_pass (source_lines code) self) as [[[] | e] s];
    [| discriminate].
  auto.
Qed.

Lemma run_fresh_compile_Return (code : string) (mc : list (Z * string)) :
  run_fresh (compile code) = Return mc ->
  exists self', compile code init = (Return mc, self').
Proof.
  unfold run_fresh. destruct (compile code init) as [r s]. simpl.
  intros ->. eauto.
Qed.

(* ================================================================== *)
(** ** Forward references                                              *)
(* ================================================================== *)

(** A label defined on a line that carries an instruction is in the
    table the first pass ends with. *)
Lemma first_pass_records (pre post : list string) (line : string)
    (name instruction : string) (args : list string) (u : unit)
    (self self' : AssemblyCompiler) :
  parse_line line = (Some name, Some instruction, args) ->
  name <> "" -> instruction <> "ORG" ->
  first_pass_loop (pre ++ line :: post) self = (Return u, self') ->
  is_Some (labels self' !! name).
Proof.
  intros Hparse Hname Hins H.
  apply first_pass_loop_split in H as (sa & sb & _ & Hline & Hpost).
  rewrite (first_pass_line_other _ _ _ _ _ Hparse) in Hline by congruence.
  rewrite (truthy_Some _ Hname) in Hline. injection Hline as <-.
  apply (first_pass_loop_keeps _ _ _ _ _ Hpost). cbn.
  rewrite lookup_insert_eq. eauto.
Qed.

(** C1, counterexample: a source with [JMP TARGET] followed later by
    [TARGET: HALT] on which compilation does not succeed, because of
    another line between the two. *)
Lemma forward_reference_not_always_compiled :
  let code := "JMP TARGET" +:+ newline +:+ "FOO" +:+ newline +:+ "TARGET: HALT" in
  source_lines code = ["JMP TARGET"; "FOO"; "TARGET: HALT"]
  /\ run_fresh (compile code)
     = Raise (Exception "Error on line 2: Unknown instruction: FOO")
  /\ ~ (exists mc, run_fresh (compile code) = Return mc).
Proof.
  cbv zeta. split; [reflexivity |]. split; [vm_compute; reflexivity |].
  intros [mc H]. vm_compute in H. discriminate.
Qed.

(** C1, as amended: when compilation succeeds on a source in which a
    line [JMP TARGET] is followed, any number of lines later, by a line
    [TARGET: HALT], the first pass has recorded a non-negative address
    [a] for [TARGET]; and when [a] is at most 31, the line [JMP TARGET]
    contributes, right after the words of the lines before it, the
    nine-bit word made of the opcode 0001 and five bits whose value is
    [a]. *)
Theorem forward_reference_operand
    (code : string) (pre mid post : list string) (jmp tgt : string)
    (label : option string) (mc : list (Z * string)) :
  source_lines code = pre ++ jmp :: mid ++ tgt :: post ->
  parse_line jmp = (label, Some "JMP", ["TARGET"]) ->
  parse_line tgt = (Some "TARGET", Some "HALT", []) ->
  run_fresh (compile code) = Return mc ->
  exists a : Z,
    labels (after_first_pass (source_lines code) init) !! "TARGET" = Some a
    /\ 0 <= a
    /\ (a <= 31 ->
        exists mc_pre addr bits mc_post,
          fst (second_pass pre (after_first_pass (source_lines code) init))
          = Return mc_pre
          /\ mc = mc_pre ++ (addr, "0001" +:+ bits) :: mc_post
          /\ String.length bits = 5%nat
          /\ int 2 bits = Some a).
Proof.
  intros Hlines Hjmp Htgt Hrun.
  apply run_fresh_compile_Return in Hrun as [s2 Hrun].
  apply compile_Return in Hrun as [Hfp Hsp].
  set (S1 := after_first_pass (source_lines code) init) in *.
  rewrite Hlines in Hfp, Hsp.
  assert (Hsome : is_Some (labels S1 !! "TARGET")).
  { rewrite first_pass_unfold in Hfp.
    change (pre ++ jmp :: mid ++ tgt :: post)
      with (pre ++ (jmp :: mid) ++ tgt :: post) in Hfp.
    rewrite app_assoc in Hfp.
    apply (first_pass_records _ _ _ _ _ _ _ _ _ Htgt) in Hfp;
      [exact Hfp | discriminate | discriminate]. }
  destruct Hsome as [a Ha]. exists a. split; [exact Ha |].
  assert (Hpos : 0 <= a).
  { destruct (after_first_pass_nonneg (source_lines code)) as [_ Hlab].
    exact (Hlab _ _ Ha). }
  split; [exact Hpos |]. intros Hle.
  rewrite second_pass_unfold in Hsp.
  apply second_pass_loop_split in Hsp
    as (mc_pre & ta & mc_line & tb & Hpre & Hline & Hpost).
  pose proof (second_pass_loop_labels _ _ _ _ _ _ Hpre) as Hlab.
  change (labels (at_address S1 0)) with (labels S1) in Hlab.
  assert (Hres : resolve_argument ta "TARGET" = Return (format_05b a)).
  { unfold resolve_argument. rewrite Hlab, Ha. reflexivity. }
  rewrite (second_pass_line_one_argument _ _ "JMP" _ "0001" _ _ Hjmp) in Hline;
    [| set_solver | reflexivity].
  rewrite Hres in Hline. injection Hline as <- <-.
  apply second_pass_loop_extends in Hpost as [out ->].
  exists mc_pre, (current_address ta), (format_05b a), out.
  split; [| split; [| split]].
  - rewrite second_pass_unfold, Hpre. reflexivity.
  - rewrite <- app_assoc. reflexivity.
  - apply format_05b_length. lia.
  - apply int_format_05b, Hpos.
Qed.

(** C1, witness: the forward reference over one intervening line. *)
Lemma forward_reference_operand_witness :
  exists a : Z,
    labels (after_first_pass
              (source_lines ("JMP TARGET" +:+ newline +:+ "NOP" +:+ newline
                             +:+ "TARGET: HALT")) init) !! "TARGET" = Some a
    /\ 0 <= a
    /\ (a <= 31 ->
        exists mc_pre addr bits mc_post,
          fst (second_pass []
                 (after_first_pass
                    (source_lines ("JMP TARGET" +:+ newline +:+ "NOP"
                                   +:+ newline +:+ "TARGET: HALT")) init))
          = Return mc_pre
          /\ [(0, "000100010"); (1, "000000000"); (2, "100000000")]
             = mc_pre ++ (addr, "0001" +:+ bits) :: mc_post
          /\ String.length bits = 5%nat
          /\ int 2 bits = Some a).
Proof.
  apply (forward_reference_operand
           ("JMP TARGET" +:+ newline +:+ "NOP" +:+ newline +:+ "TARGET: HALT")
           [] ["NOP"] [] "JMP TARGET" "TARGET: HALT" None
           [(0, "000100010"); (1, "000000000"); (2, "100000000")]);
    vm_compute; reflexivity.
Defined.

(** The label branch of [resolve_argument] has no range check: a target
    32 instructions ahead yields an operand of six digits. *)
Example forward_reference_beyond_31 :
  resolve_argument {| labels := {[ "TARGET" := 32 ]}; current_address := 0 |}
    "TARGET"
  = Return "100000".
Proof. vm_compute. reflexivity. Qed.

(* ================================================================== *)
(** ** The ORG directive                                               *)
(* ================================================================== *)

Lemma second_pass_loop_cons (line : string) (rest : list string)
    (line_num : Z) (machine_code machine_code' : list (Z * string))
    (self self' : AssemblyCompiler) :
  second_pass_loop line_num (line :: rest) machine_code self
  = (Return machine_code', self') ->
  exists mc1 s1,
    second_pass_line line machine_code self = (Return mc1, s1)
    /\ second_pass_loop (line_num + 1) rest mc1 s1
       = (Return machine_code', self').
Proof.
  cbn [second_pass_loop]. unfold bind at 1.
  destruct (try_except _ _ self) as [[mc1 | e] s1] eqn:Hline;
    [| discriminate].
  apply try_except_Return in Hline; [| intros; discriminate].
  eauto.
Qed.

(** [ORG 10] on an instance without a label named [10]. *)
Lemma org_directive_10 (self : AssemblyCompiler) :
  labels self !! "10" = None ->
  org_directive ["10"] self = (Return tt, at_address self 10).
Proof.
  intros Hl. unfold org_directive. run_monad.
  unfold resolve_argument. rewrite Hl. reflexivity.
Qed.

(** C6, counterexample: with a label named [10] defined at address 0,
    the two instructions that follow [ORG 10] are emitted at addresses
    0 and 1. *)
Lemma org_10_resolves_label_first :
  let code := "10: NOP" +:+ newline +:+ "ORG 10" +:+ newline
              +:+ "NOP" +:+ newline +:+ "HALT" in
  source_lines code = ["10: NOP"; "ORG 10"; "NOP"; "HALT"]
  /\ run_fresh (compile code)
     = Return [(0, "000000000"); (0, "000000000"); (1, "100000000")].
Proof. cbv zeta. split; vm_compute; reflexivity. Qed.

Lemma second_pass_loop_no_instruction (lines : list string) (line_num : Z)
    (machine_code : list (Z * string)) (self : AssemblyCompiler) :
  Forall no_instruction lines ->
  second_pass_loop line_num lines machine_code self
  = (Return machine_code, self).
Proof.
  intros Hall. revert line_num.
  induction Hall as [| line rest Hline _ IH]; intros n; [reflexivity |].
  cbn [second_pass_loop]. unfold bind, try_except.
  unfold no_instruction in Hline.
  destruct (parse_line line) as [[label instruction] args] eqn:Hparse.
  cbn [fst snd] in Hline. subst instruction.
  rewrite (second_pass_line_skip _ _ _ _ _ _ Hparse eq_refl). apply IH.
Qed.

(** The next line that carries an instruction, after lines that carry
    none. *)
Lemma second_pass_loop_next_instruction (gap rest : list string)
    (line : string) (label : option string) (instruction : string)
    (args : list string) (line_num : Z)
    (machine_code machine_code' : list (Z * string))
    (self self' : AssemblyCompiler) :
  Forall no_instruction gap ->
  parse_line line = (label, Some instruction, args) ->
  instruction <> "ORG" -> instruction <> "SPAWN_OBSTACLE" ->
  second_pass_loop line_num (gap ++ line :: rest) machine_code self
  = (Return machine_code', self') ->
  exists w,
    second_pass_loop (line_num + Z.of_nat (length gap) + 1) rest
      (machine_code ++ [(current_address self, w)])
      (at_address self (current_address self + 1))
    = (Return machine_code', self').
Proof.
  intros Hgap Hparse Horg Hspawn H.
  apply second_pass_loop_split in H as (mc0 & s0 & mc1 & s1 & Hg & Hl & Hr).
  rewrite (second_pass_loop_no_instruction _ _ _ _ Hgap) in Hg.
  injection Hg as <- <-.
  destruct (second_pass_line_Return _ _ _ _ _ _ _ _ Hparse Horg Hl)
    as [-> [[Hs _] | (op & b & _ & ->)]]; [congruence |].
  exists (op +:+ b). exact Hr.
Qed.

(** C6, as amended: when compilation succeeds on a source in which no
    label is named [10], and a line [ORG 10] is followed by two lines
    carrying instructions other than [ORG] and [SPAWN_OBSTACLE], with
    any number of lines without instruction (blank, comment only, or a
    label alone) after the directive and between the two, the words of
    these two lines come right after the words of the lines before the
    directive, at addresses 10 and 11: the directive itself contributes
    no word and leaves the counter at the value it sets. *)
Theorem org_addressing
    (code : string) (pre gap1 gap2 post : list string) (org l1 l2 : string)
    (label0 label1 label2 : option string) (i1 i2 : string)
    (args1 args2 : list string) (mc : list (Z * string)) :
  source_lines code = pre ++ org :: gap1 ++ l1 :: gap2 ++ l2 :: post ->
  parse_line org = (label0, Some "ORG", ["10"]) ->
  Forall no_instruction gap1 ->
  parse_line l1 = (label1, Some i1, args1) ->
  i1 <> "ORG" -> i1 <> "SPAWN_OBSTACLE" ->
  Forall no_instruction gap2 ->
  parse_line l2 = (label2, Some i2, args2) ->
  i2 <> "ORG" -> i2 <> "SPAWN_OBSTACLE" ->
  labels (after_first_pass (source_lines code) init) !! "10" = None ->
  run_fresh (compile code) = Return mc ->
  exists mc_pre w1 w2 mc_post,
    fst (second_pass pre (after_first_pass (source_lines code) init))
    = Return mc_pre
    /\ mc = mc_pre ++ (10, w1) :: (11, w2) :: mc_post.
Proof.
  intros Hlines Horg Hg1 H1 H1o H1s Hg2 H2 H2o H2s Hten Hrun.
  apply run_fresh_compile_Return in Hrun as [s2 Hrun].
  apply compile_Return in Hrun as [_ Hsp].
  set (S1 := after_first_pass (source_lines code) init) in *.
  rewrite Hlines, second_pass_unfold in Hsp.
  apply second_pass_loop_split in Hsp
    as (mc_pre & ta & mc_o & tb & Hpre & Hline & Hrest).
  pose proof (second_pass_loop_labels _ _ _ _ _ _ Hpre) as Hlab.
  change (labels (at_address S1 0)) with (labels S1) in Hlab.
  rewrite (second_pass_line_org _ _ _ _ Horg) in Hline.
  unfold bind, ret in Hline.
  rewrite org_directive_10 in Hline by (rewrite Hlab; exact Hten).
  injection Hline as <- <-.
  apply (second_pass_loop_next_instruction _ _ _ _ _ _ _ _ _ _ _ Hg1 H1 H1o H1s)
    in Hrest as [w1 Hrest].
  apply (second_pass_loop_next_instruction _ _ _ _ _ _ _ _ _ _ _ Hg2 H2 H2o H2s)
    in Hrest as [w2 Hrest].
  apply second_pass_loop_extends in Hrest as [out ->].
  exists mc_pre, w1, w2, out.
  split.
  - rewrite second_pass_unfold, Hpre. reflexivity.
  - cbn [at_address current_address]. rewrite <- !app_assoc.
    replace (10 + 1) with 11 by lia. reflexivity.
Qed.

(** C6, witness: the layout of the sample program: a comment before the
    directive, a label alone on the line after it, an empty line
    between the two instructions. *)
Lemma org_addressing_witness :
  exists mc_pre w1 w2 mc_post,
    fst (second_pass ["; Game code at address 10"]
           (after_first_pass
              (source_lines ("; Game code at address 10" +:+ newline
                             +:+ "ORG 10  " +:+ newline
                             +:+ "GAME_CODE:" +:+ newline
                             +:+ "    START_GAME" +:+ newline
                             +:+ newline
                             +:+ "    MOV 15   ; Move value 15")) init))
    = Return mc_pre
    /\ [(10, "111000000"); (11, "011101111")]
       = mc_pre ++ (10, w1) :: (11, w2) :: mc_post.
Proof.
  apply (org_addressing
           ("; Game code at address 10" +:+ newline
            +:+ "ORG 10  " +:+ newline
            +:+ "GAME_CODE:" +:+ newline
            +:+ "    START_GAME" +:+ newline
            +:+ newline
            +:+ "    MOV 15   ; Move value 15")
           ["; Game code at address 10"] ["GAME_CODE:"] [""] []
           "ORG 10  " "    START_GAME" "    MOV 15   ; Move value 15"
           None None None "START_GAME" "MOV" [] ["15"]
           [(10, "111000000"); (11, "011101111")]);
    try (vm_compute; reflexivity); try discriminate;
    repeat constructor.
Defined.

(* ================================================================== *)
(** ** Agreement of the two passes                                     *)
(* ================================================================== *)

Lemma first_pass_loop_prefix (l1 l2 : list string) (u : unit)
    (self self' : AssemblyCompiler) :
  first_pass_loop (l1 ++ l2) self = (Return u, self') ->
  exists sa,
    first_pass_loop l1 self = (Return tt, sa)
    /\ first_pass_loop l2 sa = (Return u, self').
Proof.
  rewrite first_pass_loop_app. unfold bind.
  destruct (first_pass_loop l1 self) as [[[] | e] sa]; [eauto | discriminate].
Qed.

Lemma second_pass_loop_prefix (l1 l2 : list string) (line_num : Z)
    (machine_code machine_code' : list (Z * string))
    (self self' : AssemblyCompiler) :
  second_pass_loop line_num (l1 ++ l2) machine_code self
  = (Return machine_code', self') ->
  exists mc1 sa,
    second_pass_loop line_num l1 machine_code self = (Return mc1, sa)
    /\ second_pass_loop (line_num + Z.of_nat (length l1)) l2 mc1 sa
       = (Return machine_code', self').
Proof.
  rewrite second_pass_loop_app. unfold bind.
  destruct (second_pass_loop line_num l1 machine_code self)
    as [[mc1 | e] sa]; [eauto | discriminate].
Qed.

(** One line moves the two counters alike, provided an [ORG] argument
    looks up the same in both label tables. *)
Lemma line_agree (line : string) (u : unit)
    (machine_code machine_code' : list (Z * string))
    (sA sA' sB sB' : AssemblyCompiler) :
  current_address sA = current_address sB ->
  (forall label arg,
      parse_line line = (label, Some "ORG", [arg]) ->
      labels sA !! arg = labels sB !! arg) ->
  first_pass_line line sA = (Return u, sA') ->
  second_pass_line line machine_code sB = (Return machine_code', sB') ->
  current_address sA' = current_address sB'.
Proof.
  intros Haddr Hstable.
  destruct (parse_line line) as [[label instruction] args] eqn:Hparse.
  destruct (decide (instruction = Some "ORG")) as [-> | Horg].
  - rewrite (first_pass_line_org _ _ _ Hparse).
    rewrite (second_pass_line_org _ _ _ _ Hparse). unfold bind, ret.
    intros HA HB.
    destruct (org_directive args sB) as [[uB | e] s] eqn:HorgB;
      [| discriminate].
    injection HB as _ <-.
    apply (org_directive_agree args u uB sA sA' sB s); auto.
    intros arg ->. exact (Hstable label arg eq_refl).
  - rewrite (first_pass_line_other _ _ _ _ _ Hparse Horg).
    intros HA HB. injection HA as _ <-. cbn [current_address].
    destruct (truthy instruction) eqn:Ht.
    + destruct instruction as [ins |]; [| discriminate].
      assert (Hne : ins <> "ORG") by congruence.
      destruct (second_pass_line_Return _ _ _ _ _ _ _ _ Hparse Hne HB)
        as [-> _].
      cbn. lia.
    + rewrite (second_pass_line_skip _ _ _ _ _ _ Hparse Ht) in HB.
      injection HB as _ <-. exact Haddr.
Qed.

Lemma first_pass_loop_cons_snd (line : string) (rest : list string)
    (u : unit) (self s1 : AssemblyCompiler) :
  first_pass_line line self = (Return u, s1) ->
  first_pass_loop (line :: rest) self = first_pass_loop rest s1.
Proof. intros H. cbn [first_pass_loop]. unfold bind. rewrite H. reflexivity. Qed.

Lemma lockstep (lines : list string) :
  forall (line_num : Z) (u : unit)
         (machine_code machine_code' : list (Z * string))
         (sA sA' sB sB' : AssemblyCompiler),
    current_address sA = current_address sB ->
    (forall (k : nat) line label arg,
        lines !! k = Some line ->
        parse_line line = (label, Some "ORG", [arg]) ->
        labels (snd (first_pass_loop (take k lines) sA)) !! arg
        = labels sB !! arg) ->
    first_pass_loop lines sA = (Return u, sA') ->
    second_pass_loop line_num lines machine_code sB
    = (Return machine_code', sB') ->
    current_address sA' = current_address sB'.
Proof.
  induction lines as [| line rest IH];
    intros n u mc mc' sA sA' sB sB' Haddr Hstable HA HB.
  - cbn in HA, HB. unfold ret in HA, HB.
    injection HA as _ <-. injection HB as _ <-. exact Haddr.
  - apply second_pass_loop_cons in HB as (mc1 & sB1 & HlineB & HB).
    cbn [first_pass_loop] in HA. unfold bind in HA.
    destruct (first_pass_line line sA) as [[u1 | e] sA1] eqn:HlineA;
      [| discriminate].
    assert (Haddr1 : current_address sA1 = current_address sB1).
    { apply (line_agree line u1 mc mc1 sA sA1 sB sB1); auto.
      intros label arg Hp. exact (Hstable 0%nat line label arg eq_refl Hp). }
    apply (IH (n + 1) u mc1 mc' sA1 sA' sB1 sB'); auto.
    intros k l label arg Hk Hp.
    rewrite (second_pass_line_labels _ _ _ _ _ HlineB).
    rewrite <- (Hstable (S k) l label arg Hk Hp).
    cbn [take]. rewrite (first_pass_loop_cons_snd _ _ _ _ _ HlineA).
    reflexivity.
Qed.

(** Agreement of the counters after a prefix of the lines. *)
Lemma prefix_agree (lines pre post : list string)
    (mc : list (Z * string)) (s2 : AssemblyCompiler) :
  lines = pre ++ post ->
  org_stable lines ->
  first_pass lines init = (Return tt, after_first_pass lines init) ->
  second_pass lines (after_first_pass lines init) = (Return mc, s2) ->
  exists sa mc_pre ta,
    first_pass pre init = (Return tt, sa)
    /\ second_pass pre (after_first_pass lines init) = (Return mc_pre, ta)
    /\ current_address sa = current_address ta.
Proof.
  intros Hlines Hstable Hfp Hsp.
  set (S1 := after_first_pass lines init) in *.
  rewrite first_pass_unfold in Hfp. rewrite second_pass_unfold in Hsp.
  rewrite Hlines in Hfp, Hsp.
  apply first_pass_loop_prefix in Hfp as (sa & HpreA & _).
  apply second_pass_loop_prefix in Hsp as (mc_pre & ta & HpreB & _).
  exists sa, mc_pre, ta. rewrite first_pass_unfold, second_pass_unfold.
  split; [exact HpreA |]. split; [exact HpreB |].
  apply (lockstep pre 1 tt [] mc_pre (at_address init 0) sa
                  (at_address S1 0) ta); auto.
  intros k line label arg Hk Hp.
  assert (Hlt : (k < length pre)%nat) by (apply lookup_lt_Some in Hk; exact Hk).
  assert (Htake : take k lines = take k pre).
  { rewrite Hlines. apply take_app_le. lia. }
  assert (Hk' : lines !! k = Some line).
  { rewrite Hlines. rewrite lookup_app_l by exact Hlt. exact Hk. }
  pose proof (Hstable k line label arg Hk' Hp) as Hs.
  unfold after_first_pass in Hs. rewrite first_pass_unfold, Htake in Hs.
  exact Hs.
Qed.

(** A name known after a prefix of the lines is known at the end. *)
Lemma first_pass_prefix_keeps (lines : list string) (k : nat) (name : string) :
  is_Some (labels (after_first_pass (take k lines) init) !! name) ->
  is_Some (labels (after_first_pass lines init) !! name).
Proof.
  unfold after_first_pass. rewrite !first_pass_unfold.
  rewrite <- (take_drop k lines) at 2. rewrite first_pass_loop_app.
  unfold bind.
  destruct (first_pass_loop (take k lines) (at_address init 0))
    as [[[] | e] sa]; cbn [snd]; [| auto].
  destruct (first_pass_loop (skipn k lines) sa) as [r s'] eqn:Hrest.
  cbn [snd]. apply (first_pass_loop_keeps _ _ _ _ _ Hrest).
Qed.

(** In particular the two passes agree when no [ORG] argument is the
    name of a label. *)
Lemma org_stable_without_label_arguments (lines : list string) :
  (forall (k : nat) line label arg,
      lines !! k = Some line ->
      parse_line line = (label, Some "ORG", [arg]) ->
      labels (after_first_pass lines init) !! arg = None) ->
  org_stable lines.
Proof.
  intros Hnone k line label arg Hk Hp.
  rewrite (Hnone k line label arg Hk Hp).
  destruct (labels (after_first_pass (take k lines) init) !! arg)
    as [a |] eqn:Hpartial; [| reflexivity].
  destruct (first_pass_prefix_keeps lines k arg) as [a' Ha'].
  - rewrite Hpartial. eauto.
  - rewrite (Hnone k line label arg Hk Hp) in Ha'. discriminate.
Qed.

(** C2, counterexample: compilation succeeds, [ORG X] reads 0 for [X] in
    the first pass and 1 in the second, and the second [X: NOP], for
    which the first pass recorded address 1, is emitted at address 2. *)
Lemma org_label_redefined_passes_disagree :
  let code := "X: NOP" +:+ newline +:+ "ORG X" +:+ newline
              +:+ "NOP" +:+ newline +:+ "X: NOP" in
  source_lines code = ["X: NOP"; "ORG X"; "NOP"; "X: NOP"]
  /\ run_fresh (compile code)
     = Return [(0, "000000000"); (1, "000000000"); (2, "000000000")]
  /\ labels (after_first_pass (source_lines code) init) !! "X" = Some 1
  /\ ~ passes_agree (source_lines code).
Proof.
  cbv zeta. split; [reflexivity |]. split; [vm_compute; reflexivity |].
  split; [vm_compute; reflexivity |].
  intros H. specialize (H 2%nat).
  assert (Hlen : (2 <= length (source_lines
                      ("X: NOP" +:+ newline +:+ "ORG X" +:+ newline
                       +:+ "NOP" +:+ newline +:+ "X: NOP")))%nat)
    by (vm_compute; lia).
  specialize (H Hlen). vm_compute in H. discriminate.
Qed.

(** C2, as amended: when compilation succeeds and every [ORG] argument
    looks up the same in the label table as the first pass has it on
    reaching the directive and in the final label table, the two passes
    hold the same address counter after every prefix of the lines, and
    every line that defines a label and carries an instruction has its
    word appended by the second pass at exactly the address the first
    pass recorded for the label on that line. *)
Theorem two_pass_address_agreement (code : string) (mc : list (Z * string)) :
  run_fresh (compile code) = Return mc ->
  org_stable (source_lines code) ->
  passes_agree (source_lines code)
  /\ labelled_lines_placed (source_lines code) mc.
Proof.
  intros Hrun Hstable.
  apply run_fresh_compile_Return in Hrun as [s2 Hrun].
  apply compile_Return in Hrun as [Hfp Hsp].
  set (lines := source_lines code) in *.
  split.
  - intros k Hk.
    destruct (prefix_agree lines (take k lines) (skipn k lines) mc s2)
      as (sa & mc_pre & ta & HA & HB & Haddr); auto.
    { symmetry. apply take_drop. }
    rewrite HA, HB. exact Haddr.
  - intros pre post line label instruction args Hlines Hparse Hlabel Hins.
    destruct (prefix_agree lines pre (line :: post) mc s2)
      as (sa & mc_pre & ta & HA & HB & Haddr); auto.
    set (S1 := after_first_pass lines init) in *.
    pose proof Hfp as Hfp'. pose proof Hsp as Hsp'.
    rewrite first_pass_unfold in Hfp', HA.
    rewrite second_pass_unfold in Hsp', HB.
    rewrite Hlines in Hfp', Hsp'.
    apply first_pass_loop_split in Hfp' as (sa' & sb & HpreA & HlineA & _).
    rewrite HA in HpreA. injection HpreA as <-.
    apply second_pass_loop_split in Hsp'
      as (mc_pre' & ta' & mc_line & tb & HpreB & HlineB & HpostB).
    rewrite HB in HpreB. injection HpreB as <- <-.
    rewrite (first_pass_line_other _ _ _ _ _ Hparse) in HlineA by congruence.
    rewrite (truthy_Some _ Hlabel) in HlineA. injection HlineA as <-.
    apply second_pass_loop_extends in HpostB as [mc_post ->].
    assert (Hout : exists out,
               mc_line = mc_pre ++ out
               /\ ((instruction = "SPAWN_OBSTACLE" /\ out = [])
                   \/ exists w, out = [(current_address sa, w)])).
    { destruct (second_pass_line_Return _ _ _ _ _ _ _ _ Hparse Hins HlineB)
        as [_ [[-> ->] | (opcode & bits & _ & ->)]].
      - exists []. rewrite app_nil_r. auto.
      - rewrite <- Haddr. eauto. }
    destruct Hout as (out & -> & Hout).
    exists (current_address sa), mc_pre, out, mc_post.
    unfold after_first_pass.
    split; [rewrite first_pass_unfold, HA; reflexivity |].
    split.
    { rewrite first_pass_unfold, first_pass_loop_app. unfold bind.
      rewrite HA. cbn [first_pass_loop]. unfold bind, ret.
      rewrite (first_pass_line_other _ _ _ _ _ Hparse) by congruence.
      rewrite (truthy_Some _ Hlabel). cbn. apply lookup_insert_eq. }
    split; [rewrite second_pass_unfold, HB; reflexivity |].
    split; [rewrite <- app_assoc; reflexivity | exact Hout].
Qed.

(** C2, witness: a boot block whose [ORG] argument is a plain numeral. *)
Lemma two_pass_address_agreement_witness :
  passes_agree
    (source_lines ("ORG 0" +:+ newline +:+ "START: TITLE_SCREEN" +:+ newline
                   +:+ "JMP START"))
  /\ labelled_lines_placed
       (source_lines ("ORG 0" +:+ newline +:+ "START: TITLE_SCREEN"
                      +:+ newline +:+ "JMP START"))
       [(0, "111100000"); (1, "000100000")].
Proof.
  apply (two_pass_address_agreement
           ("ORG 0" +:+ newline +:+ "START: TITLE_SCREEN" +:+ newline
            +:+ "JMP START")
           [(0, "111100000"); (1, "000100000")]).
  - vm_compute. reflexivity.
  - intros k line label arg Hk Hp.
    destruct k as [| [| [| k]]]; vm_compute in Hk;
      try discriminate; injection Hk as <-;
      vm_compute in Hp; try discriminate.
    injection Hp as <- <-. vm_compute. reflexivity.
Defined.

(* ================================================================== *)
(** ** Operand literals                                                *)
(* ================================================================== *)

(** C3, the code at the failing inputs: the range error raised inside
    each [try] of [resolve_argument] is itself a [ValueError], so the
    handler of the same [try] replaces it; [MOV 0x20] ends in the
    invalid-hex error, [MOV 0b100000] in the invalid-binary error and
    [MOV 32] in the unresolvable-argument error, while [MOV 31] gives
    the operand 11111. *)
Theorem out_of_range_error_is_masked :
  literal_attempt 16 "Hex" "0x20"
  = Raise (ValueError "Hex value 0x20 out of range (0-31)")
  /\ resolve_argument init "0x20"
     = Raise (ValueError "Invalid hex number: 0x20")
  /\ run_fresh (compile "MOV 0x20")
     = Raise (Exception "Error on line 1: Invalid hex number: 0x20")
  /\ run_fresh (compile "MOV 0b100000")
     = Raise (Exception "Error on line 1: Invalid binary number: 0b100000")
  /\ run_fresh (compile "MOV 32")
     = Raise (Exception "Error on line 1: Cannot resolve argument: 32")
  /\ run_fresh (compile "MOV 31") = Return [(0, "011111111")].
Proof. repeat split; vm_compute; reflexivity. Qed.

Lemma literal_forms_check_all :
  forallb (fun m => forallb (literal_forms_check m) (seqZ 0 32))
          (one_argument ++ one_argument_5bit) = true.
Proof. vm_compute. reflexivity. Qed.

(** C7: for each of the seven one-argument mnemonics and each value from
    0 to 31, the line made of the mnemonic and the value written in
    decimal, in hexadecimal after [0x], or in binary after [0b],
    compiles to the same single pair: address 0 and the opcode followed
    by the five bits of the value. *)
Theorem literal_forms_agree (m : string) (v : Z) :
  m ∈ one_argument ++ one_argument_5bit ->
  0 <= v <= 31 ->
  exists opcode,
    instructions !! m = Some opcode
    /\ run_fresh (compile (m +:+ " " +:+ str v))
       = Return [(0, opcode +:+ format_05b v)]
    /\ run_fresh (compile (m +:+ " " +:+ hex v))
       = run_fresh (compile (m +:+ " " +:+ str v))
    /\ run_fresh (compile (m +:+ " " +:+ bin v))
       = run_fresh (compile (m +:+ " " +:+ str v)).
Proof.
  intros Hm Hv.
  pose proof (proj1 (forallb_forall _ _) literal_forms_check_all m
                (proj1 (list_elem_of_In _ _) Hm)) as Hall.
  assert (Hin : In v (seqZ 0 32)).
  { apply list_elem_of_In, elem_of_seqZ. lia. }
  pose proof (proj1 (forallb_forall _ _) Hall v Hin) as Hchk.
  unfold literal_forms_check in Hchk.
  destruct (instructions !! m) as [opcode |]; [| discriminate].
  apply andb_true_iff in Hchk as [Hchk Hbin].
  apply andb_true_iff in Hchk as [Hdec Hhex].
  apply bool_decide_eq_true in Hdec, Hhex, Hbin.
  exists opcode. rewrite Hdec, Hhex, Hbin. auto.
Qed.

(** C7, witness: [STORE 19], [STORE 0x13] and [STORE 0b10011]. *)
Lemma literal_forms_agree_witness :
  exists opcode,
    instructions !! "STORE" = Some opcode
    /\ run_fresh (compile ("STORE" +:+ " " +:+ str 19))
       = Return [(0, opcode +:+ format_05b 19)]
    /\ run_fresh (compile ("STORE" +:+ " " +:+ hex 19))
       = run_fresh (compile ("STORE" +:+ " " +:+ str 19))
    /\ run_fresh (compile ("STORE" +:+ " " +:+ bin 19))
       = run_fresh (compile ("STORE" +:+ " " +:+ str 19)).
Proof.
  apply (literal_forms_agree "STORE" 19); [| lia].
  apply (bool_decide_unpack _). vm_compute. exact I.
Defined.

(* ================================================================== *)
(** ** SPAWN_OBSTACLE and SPAWN_FISH                                   *)
(* ================================================================== *)

(** C4: [SPAWN_OBSTACLE] has an opcode and is in none of the three
    mnemonic lists, [SPAWN_FISH] is in the no-argument list and has no
    opcode.  On a line whose mnemonic is [SPAWN_OBSTACLE] without
    argument the second pass raises nothing, appends nothing and
    advances the address counter by one; on a line whose mnemonic is
    [SPAWN_FISH] it raises the unknown-instruction error, which the loop
    reports with the number of the line. *)
Theorem spawn_obstacle_silent_spawn_fish_unknown
    (obstacle fish : string) (label_o label_f : option string)
    (args_f rest : list string) (line_num : Z)
    (machine_code : list (Z * string)) (self : AssemblyCompiler) :
  parse_line obstacle = (label_o, Some "SPAWN_OBSTACLE", []) ->
  parse_line fish = (label_f, Some "SPAWN_FISH", args_f) ->
  (instructions !! "SPAWN_OBSTACLE" = Some "1100"
   /\ ("SPAWN_OBSTACLE" ∉ no_argument)
   /\ ("SPAWN_OBSTACLE" ∉ one_argument)
   /\ ("SPAWN_OBSTACLE" ∉ one_argument_5bit))
  /\ ("SPAWN_FISH" ∈ no_argument /\ instructions !! "SPAWN_FISH" = None)
  /\ second_pass_line obstacle machine_code self
     = (Return machine_code, at_address self (current_address self + 1))
  /\ second_pass_line fish machine_code self
     = (Raise (ValueError "Unknown instruction: SPAWN_FISH"), self)
  /\ second_pass_loop line_num (fish :: rest) machine_code self
     = (Raise (Exception ("Error on line " +:+ str line_num
                          +:+ ": Unknown instruction: SPAWN_FISH")), self).
Proof.
  intros Ho Hf.
  assert (Hfish : second_pass_line fish machine_code self
                  = (Raise (ValueError "Unknown instruction: SPAWN_FISH"), self)).
  { unfold second_pass_line. rewrite Hf. closed_tests. reflexivity. }
  split; [| split; [| split; [| split]]].
  - split; [reflexivity |].
    repeat split; apply (bool_decide_unpack _); vm_compute; exact I.
  - split; [apply (bool_decide_unpack _); vm_compute; exact I | reflexivity].
  - unfold second_pass_line. rewrite Ho. closed_tests. reflexivity.
  - exact Hfish.
  - cbn [second_pass_loop]. unfold bind, try_except. rewrite Hfish.
    reflexivity.
Qed.

(** C4, witness: the bare lines [SPAWN_OBSTACLE] and [SPAWN_FISH]. *)
Lemma spawn_obstacle_silent_spawn_fish_unknown_witness :
  second_pass_line "SPAWN_OBSTACLE" [] init = (Return [], at_address init 1)
  /\ second_pass_loop 1 ["SPAWN_FISH"] [] init
     = (Raise (Exception "Error on line 1: Unknown instruction: SPAWN_FISH"),
        init).
Proof.
  destruct (spawn_obstacle_silent_spawn_fish_unknown
              "SPAWN_OBSTACLE" "SPAWN_FISH" None None [] [] 1 [] init
              eq_refl eq_refl)
    as (_ & _ & Ho & _ & Hf).
  split; [exact Ho | exact Hf].
Defined.

(* ================================================================== *)
(** ** State kept between compilations                                 *)
(* ================================================================== *)

(** Both passes begin by resetting the address counter, so a run of
    [compile] depends on the instance only through its label table. *)
Lemma compile_depends_on_labels (code : string)
    (self self' : AssemblyCompiler) :
  labels self = labels self' -> compile code self = compile code self'.
Proof.
  intros Hl. unfold compile. cbv zeta. unfold bind.
  rewrite !first_pass_unfold. unfold at_address. rewrite Hl. reflexivity.
Qed.

(** C5, counterexample: after compiling [X: NOP] the instance knows the
    label [X], and [JMP X] compiles on it, while a fresh instance
    rejects it. *)
Lemma labels_leak_between_runs :
  fst (compile "JMP X" (snd (compile "X: NOP" init)))
  = Return [(0, "000100000")]
  /\ run_fresh (compile "JMP X")
     = Raise (Exception "Error on line 1: Cannot resolve argument: X")
  /\ fst (compile "JMP X" (snd (compile "X: NOP" init)))
     <> run_fresh (compile "JMP X").
Proof.
  split; [vm_compute; reflexivity |]. split; [vm_compute; reflexivity |].
  vm_compute. discriminate.
Qed.

Lemma agree_on_impl (P Q : string -> Prop) (a b : AssemblyCompiler) :
  (forall n, Q n -> P n) -> agree_on P a b -> agree_on Q a b.
Proof. intros Himp [Ha Hl]. split; [exact Ha | auto]. Qed.

Lemma org_directive_sim (names : string -> Prop) (args : list string)
    (a b : AssemblyCompiler) :
  agree_on names a b ->
  (forall arg, args = [arg] -> names arg) ->
  exists r a' b',
    org_directive args a = (r, a') /\ org_directive args b = (r, b')
    /\ agree_on names a' b'.
Proof.
  intros [Haddr Hlab] Hargs. unfold org_directive.
  destruct args as [| arg [| ? ?]]; run_monad.
  1, 3: eexists _, a, b; split; [reflexivity |]; split; [reflexivity |];
        split; [exact Haddr | exact Hlab].
  rewrite (resolve_argument_labels a b arg (Hlab arg (Hargs arg eq_refl))).
  destruct (resolve_argument b arg) as [bits | e].
  - destruct (int_call 2 bits) as [v | e].
    + eexists _, _, _. split; [reflexivity |]. split; [reflexivity |].
      split; [reflexivity | exact Hlab].
    + eexists _, a, b. split; [reflexivity |]. split; [reflexivity |].
      split; [exact Haddr | exact Hlab].
  - eexists _, a, b. split; [reflexivity |]. split; [reflexivity |].
    split; [exact Haddr | exact Hlab].
Qed.

(** One line of the first pass on two instances that agree on the names
    in [names]: the same outcome, and agreement on the label the line
    defines as well. *)
Lemma first_pass_line_sim (names : string -> Prop) (line : string)
    (a b : AssemblyCompiler) :
  agree_on names a b ->
  (forall label arg, parse_line line = (label, Some "ORG", [arg]) ->
                     names arg) ->
  exists r a' b',
    first_pass_line line a = (r, a') /\ first_pass_line line b = (r, b')
    /\ agree_on (fun n => names n \/ (n <> "" /\ defines_label n line))
                a' b'.
Proof.
  intros Hagree Horg.
  destruct (parse_line line) as [[label instruction] args] eqn:Hparse.
  destruct (decide (instruction = Some "ORG")) as [-> | Hne].
  - rewrite (first_pass_line_org _ _ _ Hparse).
    destruct (org_directive_sim names args a b Hagree)
      as (r & a' & b' & Ha & Hb & Hag).
    { intros arg ->. exact (Horg label arg eq_refl). }
    exists r, a', b'. split; [exact Ha |]. split; [exact Hb |].
    destruct Hag as [Haddr Hlab]. split; [exact Haddr |].
    intros n [Hn | [_ [_ Hd]]]; [auto |].
    unfold defines_label in Hd. rewrite Hparse in Hd. cbn in Hd. congruence.
  - rewrite !(first_pass_line_other _ _ _ _ _ Hparse Hne).
    eexists _, _, _. split; [reflexivity |]. split; [reflexivity |].
    destruct Hagree as [Haddr Hlab]. split; cbn [current_address labels].
    + rewrite Haddr. reflexivity.
    + intros n Hn. rewrite Haddr.
      destruct (truthy label) eqn:Ht.
      * destruct label as [l |]; [| discriminate].
        change (default "" (Some l)) with l.
        rewrite !lookup_insert. case_decide; [reflexivity |].
        destruct Hn as [Hn | [_ [Hd _]]]; [auto |].
        unfold defines_label in Hd. rewrite Hparse in Hd. cbn in Hd. congruence.
      * destruct Hn as [Hn | [Hne' [Hd _]]]; [auto |].
        rewrite Hparse in Hd. cbn in Hd. subst label.
        rewrite (truthy_Some _ Hne') in Ht. discriminate.
Qed.

Lemma defined_by_cons (line : string) (rest : list string) (n : string) :
  defined_by (line :: rest) n
  <-> (n <> "" /\ defines_label n line) \/ defined_by rest n.
Proof.
  unfold defined_by. split.
  - intros [Hne (l & Hin & Hd)]. apply elem_of_cons in Hin as [-> | Hin];
      [left; auto | right; eauto].
  - intros [[Hne Hd] | [Hne (l & Hin & Hd)]]; split; auto.
    + exists line. split; [apply list_elem_of_here | exact Hd].
    + exists l. split; [apply list_elem_of_further, Hin | exact Hd].
Qed.

Lemma first_pass_loop_sim (lines : list string) :
  forall (names : string -> Prop) (a b : AssemblyCompiler),
    agree_on names a b ->
    (forall (k : nat) line label arg,
        lines !! k = Some line ->
        parse_line line = (label, Some "ORG", [arg]) ->
        names arg \/ defined_by (take k lines) arg) ->
    exists r a' b',
      first_pass_loop lines a = (r, a') /\ first_pass_loop lines b = (r, b')
      /\ (r = Return tt ->
          agree_on (fun n => names n \/ defined_by lines n) a' b').
Proof.
  induction lines as [| line rest IH]; intros names a b Hagree Horg.
  - exists (Return tt), a, b. split; [reflexivity |]. split; [reflexivity |].
    intros _. apply (agree_on_impl names); [| exact Hagree].
    intros n [Hn | [_ (l & Hin & _)]]; [exact Hn |].
    apply elem_of_nil in Hin. destruct Hin.
  - destruct (first_pass_line_sim names line a b Hagree)
      as (r1 & a1 & b1 & Ha1 & Hb1 & Hag1).
    { intros label arg Hp.
      destruct (Horg 0%nat line label arg eq_refl Hp)
        as [Hn | [_ (l & Hin & _)]]; [exact Hn |].
      apply elem_of_nil in Hin. destruct Hin. }
    cbn [first_pass_loop]. unfold bind. rewrite Ha1, Hb1.
    destruct r1 as [[] | e].
    + destruct (IH _ a1 b1 Hag1) as (r & a' & b' & Ha & Hb & Hag).
      { intros k l label arg Hk Hp.
        destruct (Horg (S k) l label arg Hk Hp) as [Hn | Hd]; [auto |].
        cbn [take] in Hd. apply defined_by_cons in Hd as [Hd | Hd]; auto. }
      exists r, a', b'. split; [exact Ha |]. split; [exact Hb |].
      intros Hr.
      apply (agree_on_impl
               (fun n => (names n \/ (n <> "" /\ defines_label n line))
                         \/ defined_by rest n)); [| exact (Hag Hr)].
      intros n [Hn | Hd]; [auto |].
      apply defined_by_cons in Hd as [Hd | Hd]; auto.
    + exists (Raise e), a1, b1. split; [reflexivity |].
      split; [reflexivity | discriminate].
Qed.

Lemma encode_one_argument_sim (names : string -> Prop)
    (instruction opcode : string) (args : list string)
    (machine_code : list (Z * string)) (a b : AssemblyCompiler) :
  agree_on names a b ->
  (forall arg, args = [arg] -> names arg) ->
  exists r,
    encode_one_argument instruction opcode args machine_code a = (r, a)
    /\ encode_one_argument instruction opcode args machine_code b = (r, b).
Proof.
  intros [Haddr Hlab] Hargs. unfold encode_one_argument.
  destruct args as [| arg [| ? ?]]; run_monad.
  1, 3: eexists; split; reflexivity.
  rewrite (resolve_argument_labels a b arg (Hlab arg (Hargs arg eq_refl))).
  rewrite Haddr.
  destruct (resolve_argument b arg); eexists; split; reflexivity.
Qed.

(** One line of the second pass on two instances that agree on the
    operand that the line resolves. *)
Lemma second_pass_line_sim (names : string -> Prop) (line : string)
    (machine_code : list (Z * string)) (a b : AssemblyCompiler) :
  agree_on names a b ->
  (forall arg, resolved_operand line arg -> names arg) ->
  exists r a' b',
    second_pass_line line machine_code a = (r, a')
    /\ second_pass_line line machine_code b = (r, b')
    /\ agree_on names a' b'.
Proof.
  intros Hagree Hargs. unfold second_pass_line.
  unfold resolved_operand in Hargs.
  destruct (parse_line line) as [[label instruction] args].
  destruct (bool_decide (instruction = Some "ORG")) eqn:Horg.
  - apply bool_decide_eq_true in Horg. subst instruction.
    destruct (org_directive_sim names args a b Hagree)
      as (r & a' & b' & Ha & Hb & Hag).
    { intros arg ->. apply Hargs. exists label, "ORG". auto. }
    unfold bind, ret. rewrite Ha, Hb.
    destruct r as [u | e]; eexists _, a', b'; auto.
  - destruct instruction as [i |];
      [| exists (Return machine_code), a, b; auto].
    destruct (negb (truthy (Some i)) || false);
      [exists (Return machine_code), a, b; auto |].
    change (default "" (Some i)) with i.
    destruct (instructions !! i) as [opcode |];
      [| eexists _, a, b; unfold raise; auto].
    cbv zeta.
    match goal with
    | |- context [bind ?m _ a] => set (body := m)
    end.
    assert (exists r, body a = (r, a) /\ body b = (r, b))
      as (r & Ha & Hb).
    { subst body. pose proof Hagree as [Haddr Hlab].
      destruct (bool_decide (i ∈ no_argument)).
      - destruct args; run_monad; rewrite ?Haddr; eexists; split; reflexivity.
      - destruct (bool_decide (i ∈ one_argument)) eqn:H1.
        { apply bool_decide_eq_true in H1.
          apply (encode_one_argument_sim names); [exact Hagree |].
          intros arg ->. apply Hargs. exists label, i. auto. }
        destruct (bool_decide (i ∈ one_argument_5bit)) eqn:H5.
        { apply bool_decide_eq_true in H5.
          apply (encode_one_argument_sim names); [exact Hagree |].
          intros arg ->. apply Hargs. exists label, i. auto. }
        eexists; split; reflexivity. }
    destruct Hagree as [Haddr Hlab].
    unfold bind. rewrite Ha, Hb.
    destruct r as [mc | e]; run_monad; rewrite ?Haddr;
      eexists _, _, _; (split; [reflexivity |]); (split; [reflexivity |]);
      (split; [first [reflexivity | exact Haddr] | exact Hlab]).
Qed.

Lemma second_pass_loop_sim (names : string -> Prop) (lines : list string) :
  forall (line_num : Z) (machine_code : list (Z * string))
         (a b : AssemblyCompiler),
    agree_on names a b ->
    (forall arg, operand_of lines arg -> names arg) ->
    fst (second_pass_loop line_num lines machine_code a)
    = fst (second_pass_loop line_num lines machine_code b).
Proof.
  induction lines as [| line rest IH]; intros n mc a b Hagree Hargs.
  - reflexivity.
  - destruct (second_pass_line_sim names line mc a b Hagree)
      as (r & a' & b' & Ha & Hb & Hag).
    { intros arg Hin. apply Hargs. exists line.
      split; [apply list_elem_of_here | exact Hin]. }
    cbn [second_pass_loop]. unfold bind, try_except. rewrite Ha, Hb.
    destruct r as [mc1 | e]; [| reflexivity].
    apply (IH _ _ _ _ Hag).
    intros arg (l & Hin & Harg). apply Hargs. exists l.
    split; [apply list_elem_of_further, Hin | exact Harg].
Qed.

(** [compile] gives the same outcome on two instances whose label
    tables agree on the names in [names], when every operand that the
    passes resolve is one of these names or a label the source defines
    itself: before the line for the argument of an [ORG], anywhere for
    the others. *)
Lemma compile_sim (names : string -> Prop) (code : string)
    (a b : AssemblyCompiler) :
  (forall n, names n -> labels a !! n = labels b !! n) ->
  (forall (k : nat) line label arg,
      source_lines code !! k = Some line ->
      parse_line line = (label, Some "ORG", [arg]) ->
      names arg \/ defined_by (take k (source_lines code)) arg) ->
  (forall arg, operand_of (source_lines code) arg ->
               names arg \/ defined_by (source_lines code) arg) ->
  fst (compile code a) = fst (compile code b).
Proof.
  intros Hlab Horg Hargs. unfold compile. cbv zeta. unfold bind.
  rewrite !first_pass_unfold.
  destruct (first_pass_loop_sim (source_lines code) names
              (at_address a 0) (at_address b 0))
    as (r & a1 & b1 & Ha & Hb & Hag);
    [split; [reflexivity | exact Hlab] | exact Horg |].
  rewrite Ha, Hb. destruct r as [[] | e]; [| reflexivity].
  rewrite !second_pass_unfold.
  apply (second_pass_loop_sim
           (fun n => names n \/ defined_by (source_lines code) n));
    [| exact Hargs].
  destruct (Hag eq_refl) as [_ Hl]. split; [reflexivity | exact Hl].
Qed.

(** C5, as amended: the address counter does not leak between runs, the
    label table does.  Compiling [s2] on the instance that compiled [s1]
    yields the same result as compiling it on a fresh instance whenever
    [s2] resolves no stale label: every operand of [s2] (the only
    argument of an [ORG] or of a one-argument instruction) that names a
    label left by the run on [s1] is a label that [s2] defines itself,
    on an earlier line when it is the argument of an [ORG], on any line
    otherwise.  This is so in particular when no operand of [s2] names a
    label left by [s1]. *)
Theorem reuse_agrees_unless_stale_label_used (s1 s2 : string) :
  (forall (k : nat) line label arg,
      source_lines s2 !! k = Some line ->
      parse_line line = (label, Some "ORG", [arg]) ->
      is_Some (labels (snd (compile s1 init)) !! arg) ->
      defined_by (take k (source_lines s2)) arg) ->
  (forall arg,
      operand_of (source_lines s2) arg ->
      is_Some (labels (snd (compile s1 init)) !! arg) ->
      defined_by (source_lines s2) arg) ->
  fst (compile s2 (snd (compile s1 init))) = run_fresh (compile s2).
Proof.
  intros Horg Hargs. unfold run_fresh.
  apply (compile_sim
           (fun n => labels (snd (compile s1 init)) !! n = None)).
  - intros n ->. symmetry. apply lookup_empty.
  - intros k line label arg Hk Hp.
    destruct (labels (snd (compile s1 init)) !! arg) as [v |] eqn:Hl;
      [right | left; reflexivity].
    apply (Horg k line label arg Hk Hp). rewrite Hl. eauto.
  - intros arg Hin.
    destruct (labels (snd (compile s1 init)) !! arg) as [v |] eqn:Hl;
      [right | left; reflexivity].
    apply (Hargs arg Hin). rewrite Hl. eauto.
Qed.

(** C5, witness: the first run leaves [START] at address 1 and [X] at
    address 2; the second source defines [START] again, at address 0,
    and jumps to it, and does not use [X]. *)
Lemma reuse_agrees_unless_stale_label_used_witness :
  labels (snd (compile ("NOP" +:+ newline +:+ "START: NOP" +:+ newline
                        +:+ "X: HALT") init))
  = {[ "START" := 1; "X" := 2 ]}
  /\ fst (compile ("START: MOV 7" +:+ newline +:+ "JMP START")
         (snd (compile ("NOP" +:+ newline +:+ "START: NOP" +:+ newline
                        +:+ "X: HALT") init)))
     = run_fresh (compile ("START: MOV 7" +:+ newline +:+ "JMP START"))
  /\ run_fresh (compile ("START: MOV 7" +:+ newline +:+ "JMP START"))
     = Return [(0, "011100111"); (1, "000100000")].
Proof.
  split; [apply (bool_decide_unpack _); vm_compute; exact I |].
  split; [| vm_compute; reflexivity].
  apply (reuse_agrees_unless_stale_label_used
           ("NOP" +:+ newline +:+ "START: NOP" +:+ newline +:+ "X: HALT")
           ("START: MOV 7" +:+ newline +:+ "JMP START")).
  - intros k line label arg Hk Hp.
    destruct k as [| [| k]]; vm_compute in Hk; try discriminate;
      injection Hk as <-; vm_compute in Hp; discriminate.
  - intros arg (line & Hin & label & instruction & Hp & Hi) Hsome.
    change (source_lines ("START: MOV 7" +:+ newline +:+ "JMP START"))
      with ["START: MOV 7"; "JMP START"] in *.
    apply elem_of_cons in Hin as [-> | Hin];
      [| apply list_elem_of_singleton in Hin; subst line];
      vm_compute in Hp; injection Hp as <- <- <-.
    + vm_compute in Hsome. destruct Hsome as [v Hv]. discriminate.
    + split; [discriminate |]. exists "START: MOV 7".
      split; [apply list_elem_of_here |].
      split; [reflexivity | vm_compute; discriminate].
Defined.
(* ================================================================== *)
(** ** Errors of the second pass                                       *)
(* ================================================================== *)

(** A failing second pass stops at the first line whose iteration
    raises, after running the lines before it, and reports the error of
    that iteration under the position of the line in the list it was
    given, counted from [line_num]. *)
Lemma second_pass_loop_Raise (lines : list string) :
  forall (line_num : Z) (machine_code : list (Z * string)) (e : exn)
         (self self' : AssemblyCompiler),
    second_pass_loop line_num lines machine_code self = (Raise e, self') ->
    exists (k : nat) (line : string) (mc_k : list (Z * string))
           (s_k : AssemblyCompiler) (cause : exn),
      lines !! k = Some line
      /\ second_pass_loop line_num (take k lines) machine_code self
         = (Return mc_k, s_k)
      /\ second_pass_line line mc_k s_k = (Raise cause, self')
      /\ e = Exception ("Error on line " +:+ str (line_num + Z.of_nat k)
                        +:+ ": " +:+ exn_str cause).
Proof.
  induction lines as [| line rest IH]; intros n mc e self self' H.
  - cbn in H. discriminate.
  - cbn [second_pass_loop] in H. unfold bind, try_except in H.
    destruct (second_pass_line line mc self) as [[mc1 | e0] s1] eqn:Hline.
    + apply IH in H as (k & l & mc_k & s_k & cause & Hk & Hpre & Hl & ->).
      exists (S k), l, mc_k, s_k, cause.
      split; [exact Hk |]. split; [| split; [exact Hl |]].
      * cbn [take second_pass_loop]. unfold bind, try_except.
        rewrite Hline. exact Hpre.
      * do 4 f_equal. lia.
    + unfold raise in H. injection H as <- <-.
      exists 0%nat, line, mc, self, e0.
      split; [reflexivity |]. split; [reflexivity |].
      split; [exact Hline |].
      unfold line_error. rewrite Z.add_0_r. reflexivity.
Qed.

(** C8, the code at the failing input: [compile] strips the text before
    cutting it into lines, so a source whose first line is blank and
    whose second line holds the unknown mnemonic [FOO] is reported as
    failing on line 1. *)
Theorem error_line_counted_after_strip :
  let code := newline +:+ "FOO" in
  split_on "010" code = [""; "FOO"]
  /\ source_lines code = ["FOO"]
  /\ run_fresh (compile code)
     = Raise (Exception "Error on line 1: Unknown instruction: FOO").
Proof. cbv zeta. repeat split; vm_compute; reflexivity. Qed.

(* ================================================================== *)
(** ** The hexadecimal formatter                                       *)
(* ================================================================== *)

Lemma hex_entry_exact_check_all :
  forallb hex_entry_exact_check (bit_strings 9) = true.
Proof. vm_compute. reflexivity. Qed.

Lemma binary_to_hex_loop_9bit_exact
    (machine_code hex_list : list (Z * string)) :
  Forall (fun p => String.length (snd p) = 9%nat
                   /\ all_chars is_bit (snd p) = true) machine_code ->
  exists out,
    binary_to_hex_loop machine_code hex_list = Return (hex_list ++ out)
    /\ Forall2 hex_entry_exact machine_code out.
Proof.
  revert hex_list.
  induction machine_code as [| [addr b] rest IH]; intros acc Hall.
  - exists []. simpl. rewrite app_nil_r. split; constructor.
  - apply Forall_cons in Hall as [[Hlen Hbits] Hrest]. simpl in Hlen, Hbits.
    pose proof (bit_strings_complete b Hbits) as Hin. rewrite Hlen in Hin.
    apply list_elem_of_In in Hin.
    pose proof (proj1 (forallb_forall _ _) hex_entry_exact_check_all b Hin)
      as Hval.
    pose proof (hex_entry_check_9bit b Hlen Hbits) as Hchk.
    unfold hex_entry_check in Hchk. unfold hex_entry_exact_check in Hval.
    destruct (int 2 b) as [n |] eqn:Hint; [| discriminate].
    apply andb_true_iff in Hchk as [Hchk H16].
    apply andb_true_iff in Hchk as [H3 Hup].
    apply bool_decide_eq_true in H3, H16, Hval.
    destruct (IH (acc ++ [(addr, zfill 3 (upper (slice_from 2 (hex n))))])
                 Hrest) as (out & Hloop & Hout).
    exists ((addr, zfill 3 (upper (slice_from 2 (hex n)))) :: out).
    split.
    + cbn [binary_to_hex_loop]. unfold int_call. rewrite Hint, Hloop.
      rewrite <- app_assoc. reflexivity.
    + constructor; [| exact Hout].
      unfold hex_entry_exact, hex_entry_ok; cbn [fst snd].
      split; [| exact Hval]. repeat split; auto. exists n. auto.
Qed.

(** C9: on pairs whose words are strings of nine binary digits,
    [binary_to_hex] does not fail, and it returns, pair for pair and in
    the same order, the unchanged address with three upper-case
    hexadecimal digits whose value is the value of the nine bits: both
    values are read digit by digit from a table of digits, and they
    agree with what [int] reads in base 16 and in base 2. *)
Theorem binary_to_hex_nine_bits (machine_code : list (Z * string)) :
  Forall (fun p => String.length (snd p) = 9%nat
                   /\ all_chars is_bit (snd p) = true) machine_code ->
  exists hex_list,
    binary_to_hex machine_code = Return hex_list
    /\ Forall2 hex_entry_exact machine_code hex_list.
Proof.
  intros Hall. unfold binary_to_hex.
  destruct (binary_to_hex_loop_9bit_exact machine_code [] Hall)
    as (out & H & Hok).
  exists out. split; [exact H | exact Hok].
Qed.

(** C9, witness: the two words of the boot block. *)
Lemma binary_to_hex_nine_bits_witness :
  exists hex_list,
    binary_to_hex [(0, "111100000"); (1, "000100000")] = Return hex_list
    /\ Forall2 hex_entry_exact [(0, "111100000"); (1, "000100000")] hex_list.
Proof.
  apply (binary_to_hex_nine_bits [(0, "111100000"); (1, "000100000")]).
  repeat constructor.
Defined.

(* ================================================================== *)
(** ** Tokens of a line                                                *)
(* ================================================================== *)

(** C10, counterexample: the argument token [,5] loses its leading
    comma, although removing trailing commas alone leaves it as it
    is. *)
Lemma leading_comma_is_stripped :
  split "MOV ,5" = ["MOV"; ",5"]
  /\ rstrip (is_char ",") ",5" = ",5"
  /\ parse_line "MOV ,5" = (None, Some "MOV", ["5"]).
Proof. repeat split; vm_compute; reflexivity. Qed.

Lemma split_label_body_first (text : string) (label : option string)
    (body : string) :
  first_satisfies isspace text = false ->
  split_label text = (label, body) ->
  first_satisfies isspace body = false.
Proof.
  unfold split_label. intros Htext.
  destruct (partition ":" text) as [before [after |]]; intros [= _ <-].
  - apply strip_isspace_first.
  - exact Htext.
Qed.

Lemma all_blank_first (ws rest : string) :
  all_chars isspace ws = true ->
  first_satisfies isspace (ws +:+ rest) = false ->
  ws = "".
Proof.
  destruct ws as [| c r]; [reflexivity |].
  rewrite append_cons. simpl. intros H Hf.
  apply andb_true_iff in H as [Hc _]. congruence.
Qed.

Lemma tokenizes_blank (c : ascii) (s : string) (toks : list string) :
  isspace c = true -> tokenizes s toks -> tokenizes (String c s) toks.
Proof.
  intros Hc. destruct toks as [| t ts]; simpl.
  - intros ->. rewrite Hc. reflexivity.
  - intros (ws & rest & -> & Hws & Ht & Hrest & Hts).
    exists (String c ws), rest. rewrite append_cons. simpl.
    rewrite Hc, Hws. auto.
Qed.

(** [split] cuts a text into its words. *)
Lemma split_tokenizes (s : string) : tokenizes s (split s).
Proof.
  induction s as [| c r IH]; [reflexivity |].
  cbn [split]. destruct (isspace c) eqn:Hc; [apply tokenizes_blank; auto |].
  assert (Htok : forall w, all_chars (fun x => negb (isspace x)) w = true ->
                           is_token (String c w)).
  { intros w Hw. split; [discriminate |]. simpl. rewrite Hc, Hw. reflexivity. }
  destruct r as [| c' r'].
  - exists "", "". split; [reflexivity |].
    split; [reflexivity |]. split; [apply (Htok ""); reflexivity |].
    split; [auto | reflexivity].
  - destruct (isspace c') eqn:Hc'.
    + exists "", (String c' r'). split; [reflexivity |].
      split; [reflexivity |]. split; [apply (Htok ""); reflexivity |].
      split; [right; exact Hc' | exact IH].
    + destruct (split (String c' r')) as [| w ws].
      * simpl in IH. rewrite Hc' in IH. discriminate.
      * destruct IH as (blanks & rest & Heq & Hb & [_ Hw] & Hrest & Hws).
        assert (blanks = "") as ->.
        { apply (all_blank_first blanks (w +:+ rest) Hb).
          rewrite <- Heq. exact Hc'. }
        rewrite append_nil in Heq.
        exists "", rest. rewrite Heq, append_nil, append_cons.
        split; [reflexivity |]. split; [reflexivity |].
        split; [apply Htok, Hw |]. auto.
Qed.

Lemma upper_char_cased (c : ascii) :
  if is_lower c then ord (upper_char c) = ord c - 32 else upper_char c = c.
Proof. destruct c as [[] [] [] [] [] [] [] []]; reflexivity. Qed.

(** [upper] turns the letters [a] to [z] into capitals and keeps the
    rest. *)
Lemma upper_upper_cased (s : string) : upper_cased s (upper s).
Proof.
  induction s as [| c r IH]; simpl; [exact I |].
  split; [apply upper_char_cased | exact IH].
Qed.

(** C10, as amended: for a line that is not blank once its comment is
    removed, and whose text after the label is not empty, that text is
    cut into its words, the maximal runs of characters that are not
    blanks; the instruction is the first word with each letter [a] to
    [z] turned into its capital and nothing else changed, and the
    arguments are the following words, in order, each without the
    commas at its two ends, leading as well as trailing, and otherwise
    unchanged. *)
Theorem parse_line_tokens (line : string) (label : option string)
    (body : string) :
  strip_comment line <> "" ->
  split_label (strip_comment line) = (label, body) ->
  body <> "" ->
  exists (tok instruction : string) (toks args : list string),
    tokenizes body (tok :: toks)
    /\ split body = tok :: toks
    /\ Forall is_token (tok :: toks)
    /\ parse_line line = (label, Some instruction, args)
    /\ upper_cased tok instruction
    /\ instruction = upper tok
    /\ Forall2 commas_stripped toks args.
Proof.
  intros Htext Hlabel Hbody.
  assert (Hfirst : first_satisfies isspace body = false).
  { apply (split_label_body_first _ _ _ (strip_isspace_first _) Hlabel). }
  pose proof (split_first_nonblank body Hbody Hfirst) as Hsplit.
  pose proof (split_tokens body) as Htok.
  pose proof (split_tokenizes body) as Hcut.
  destruct (split body) as [| tok toks] eqn:Hs; [congruence |].
  exists tok, (upper tok), toks, (map (strip (is_char ",")) toks).
  split; [exact Hcut |]. split; [reflexivity |]. split; [exact Htok |].
  split; [| split; [apply upper_upper_cased | split; [reflexivity |]]].
  - unfold parse_line.
    rewrite (proj2 (is_empty_false _) Htext), Hlabel.
    rewrite (proj2 (is_empty_false _) Hbody), Hs. reflexivity.
  - clear. induction toks as [| t ts IH]; constructor;
      [apply strip_commas_stripped | exact IH].
Qed.

(** C10, witness: a labelled line with commas on both sides of its
    arguments. *)
Lemma parse_line_tokens_witness :
  exists (tok instruction : string) (toks args : list string),
    tokenizes "mov ,5, r1," (tok :: toks)
    /\ split "mov ,5, r1," = tok :: toks
    /\ Forall is_token (tok :: toks)
    /\ parse_line "loop: mov ,5, r1, ; copy"
       = (Some "loop", Some instruction, args)
    /\ upper_cased tok instruction
    /\ instruction = upper tok
    /\ Forall2 commas_stripped toks args.
Proof.
  apply (parse_line_tokens "loop: mov ,5, r1, ; copy" (Some "loop")
           "mov ,5, r1,");
    [vm_compute; discriminate | vm_compute; reflexivity | discriminate].
Defined.

(* ================================================================== *)
(** ** Beyond the claims: operand resolution                           *)
(* ================================================================== *)

Lemma length_append (a b : string) :
  String.length (a +:+ b) = (String.length a + String.length b)%nat.
Proof.
  induction a as [| c r IH]; rewrite ?append_nil, ?append_cons; simpl; auto.
Qed.

Lemma length_zeros (k : nat) : String.length (zeros k) = k.
Proof. induction k; simpl; auto. Qed.

Lemma format_05b_bits (n : Z) :
  0 <= n -> all_chars is_bit (format_05b n) = true.
Proof.
  intros Hn. unfold format_05b.
  destruct (n <? 0) eqn:Hneg; [apply Z.ltb_lt in Hneg; lia |].
  rewrite all_chars_app, all_bits_zeros.
  destruct n as [| p | p]; [reflexivity | apply all_bits_pos_bin | lia].
Qed.

Lemma format_05b_min_length (n : Z) :
  0 <= n -> (5 <= String.length (format_05b n))%nat.
Proof.
  intros Hn. unfold format_05b.
  destruct (n <? 0) eqn:Hneg; [apply Z.ltb_lt in Hneg; lia |].
  rewrite length_append, length_zeros. lia.
Qed.

Lemma bits_plain (s : string) :
  all_chars is_bit s = true -> s <> "" ->
  first_satisfies (is_char "+") s = false
  /\ first_satisfies (is_char "-") s = false
  /\ first_satisfies (is_char "_") s = false
  /\ skip_prefix 2 s = s.
Proof.
  intros Hbits Hne. destruct s as [| c r]; [congruence |].
  simpl in Hbits. apply andb_true_iff in Hbits as [Hc Hr].
  destruct (is_bit_cases c Hc) as [-> | ->]; [| repeat split].
  destruct r as [| c' r']; [repeat split |].
  simpl in Hr. apply andb_true_iff in Hr as [Hc' _].
  destruct (is_bit_cases c' Hc') as [-> | ->]; repeat split.
Qed.

Lemma int_minus_bits (s : string) :
  all_chars is_bit s = true -> s <> "" ->
  int 2 (String "-" s) = Some (- bits_value 0 s).
Proof.
  intros Hbits Hne. unfold int.
  rewrite strip_id.
  2:{ cbn [all_chars]. apply andb_true_iff. split; [reflexivity |].
      apply (all_chars_impl is_bit); [| exact Hbits].
      intros c Hc. destruct (is_bit_cases c Hc) as [-> | ->]; reflexivity. }
  change (first_satisfies (is_char "+") (String "-" s)) with false.
  change (first_satisfies (is_char "-") (String "-" s)) with true.
  cbv iota. change (slice_from 1 (String "-" s)) with s.
  destruct (bits_plain s Hbits Hne) as (_ & _ & Hus & Hpre).
  rewrite Hpre, Hus, (scan_bits s false 0 Hbits (or_intror Hne)).
  f_equal; lia.
Qed.

(** Reading back [format(n, '05b')] in base 2 gives [n], whatever its
    sign. *)
Lemma int_format_05b_any (n : Z) : int 2 (format_05b n) = Some n.
Proof.
  destruct (Z_lt_le_dec n 0) as [Hneg | Hpos]; [| apply int_format_05b, Hpos].
  destruct n as [| p | p]; try lia.
  unfold format_05b. change (Z.neg p <? 0) with true. cbv iota.
  cbn [bin_digits]. rewrite int_minus_bits.
  - rewrite bits_value_zeros.
    rewrite <- (append_empty_r (pos_bin p)), bits_value_pos_bin.
    reflexivity.
  - rewrite all_chars_app, all_bits_zeros, all_bits_pos_bin. reflexivity.
  - apply append_nonempty_r, pos_bin_nonempty.
Qed.

(** A digit of the table is a digit for [int()], with the same value,
    and is neither a blank, a sign nor an underscore. *)
Lemma digit_in_table_value (c : ascii) (v : Z) :
  digit_in_table c = Some v ->
  digit_value c = Some v /\ 0 <= v /\ is_char "_" c = false
  /\ is_char "+" c = false /\ is_char "-" c = false
  /\ int_isspace c = false.
Proof.
  destruct c as [[] [] [] [] [] [] [] []]; vm_compute; intros H;
    try discriminate; injection H as <-;
    repeat split; discriminate.
Qed.

Lemma is_digit_below_value (base : Z) (c : ascii) :
  is_digit_below base c = true ->
  exists v, digit_in_table c = Some v /\ (v <? base) = true.
Proof.
  unfold is_digit_below. destruct (digit_in_table c) as [v |];
    [eauto | discriminate].
Qed.

Lemma scan_digits_numeral (base : Z) (s : string) :
  forall (seen : bool) (acc : Z),
    all_chars (is_digit_below base) s = true ->
    seen = true \/ s <> "" ->
    scan_digits base false seen acc s = Some (numeral_value base acc s).
Proof.
  induction s as [| c r IH]; intros seen acc Hall Hseen.
  - destruct Hseen as [-> | Hne]; [reflexivity | congruence].
  - cbn [all_chars] in Hall. apply andb_prop in Hall as [Hc Hr].
    apply is_digit_below_value in Hc as (v & Hv & Hlt).
    destruct (digit_in_table_value c v Hv) as (Hd & _ & Hus & _).
    cbn [scan_digits numeral_value]. rewrite Hus, Hd, Hlt, Hv.
    apply IH; auto.
Qed.

Lemma numeral_value_nonneg (base : Z) (s : string) :
  forall acc, 0 <= base -> 0 <= acc -> 0 <= numeral_value base acc s.
Proof.
  induction s as [| c r IH]; intros acc Hb Ha; cbn [numeral_value]; [lia |].
  assert (0 <= default 0 (digit_in_table c)) as Hd.
  { destruct (digit_in_table c) as [v |] eqn:Hv; cbn; [| lia].
    apply digit_in_table_value in Hv. lia. }
  apply IH; nia.
Qed.

Lemma all_chars_first_false (p q : ascii -> bool) (s : string) :
  (forall c, p c = true -> q c = false) ->
  all_chars p s = true -> first_satisfies q s = false.
Proof.
  intros Hpq. destruct s as [| c r]; cbn; [reflexivity |].
  intros H. apply andb_prop in H as [Hc _]. auto.
Qed.

(** [int()] on a numeral made of digits of the table below the base. *)
Lemma int_numeral (k : literal_kind) (digits : string) :
  digits <> "" ->
  all_chars (is_digit_below (literal_radix k)) digits = true ->
  int (literal_radix k) (literal_prefix k +:+ digits)
  = Some (numeral_value (literal_radix k) 0 digits).
Proof.
  intros Hne Hall.
  assert (forall c, is_digit_below (literal_radix k) c = true ->
                    is_char "_" c = false /\ is_char "+" c = false
                    /\ is_char "-" c = false /\ int_isspace c = false)
    as Hdigit.
  { intros c Hc. apply is_digit_below_value in Hc as (v & Hv & _).
    apply digit_in_table_value in Hv. tauto. }
  assert (all_chars (fun c => negb (int_isspace c)) digits = true) as Hnb.
  { apply (all_chars_impl (is_digit_below (literal_radix k))); [| exact Hall].
    intros c Hc. apply negb_true_iff. apply Hdigit, Hc. }
  assert (strip int_isspace (literal_prefix k +:+ digits)
          = literal_prefix k +:+ digits) as Hstrip.
  { apply strip_id. rewrite all_chars_app, Hnb.
    destruct k as [| [] | []]; reflexivity. }
  unfold int. cbv zeta. rewrite Hstrip.
  assert (first_satisfies (is_char "_") digits = false) as Hus.
  { apply (all_chars_first_false (is_digit_below (literal_radix k)));
      [| exact Hall]. intros c Hc. apply Hdigit, Hc. }
  assert (first_satisfies (is_char "+") digits = false) as Hplus.
  { apply (all_chars_first_false (is_digit_below (literal_radix k)));
      [| exact Hall]. intros c Hc. apply Hdigit, Hc. }
  assert (first_satisfies (is_char "-") digits = false) as Hminus.
  { apply (all_chars_first_false (is_digit_below (literal_radix k)));
      [| exact Hall]. intros c Hc. apply Hdigit, Hc. }
  destruct k as [| capital | capital].
  - assert (skip_prefix 10 digits = digits) as Hskip by reflexivity.
    rewrite append_nil. cbn [literal_radix]. rewrite Hplus, Hminus, Hskip, Hus.
    rewrite (scan_digits_numeral 10 digits false 0 Hall (or_intror Hne)).
    f_equal. lia.
  - assert (skip_prefix 16 (literal_prefix (Hexadecimal capital) +:+ digits)
            = digits) as Hskip.
    { unfold skip_prefix.
      replace (startswith "0x" (literal_prefix (Hexadecimal capital) +:+ digits)
               || startswith "0X"
                    (literal_prefix (Hexadecimal capital) +:+ digits))
        with true by (destruct capital, digits; reflexivity).
      replace (slice_from 2 (literal_prefix (Hexadecimal capital) +:+ digits))
        with digits by (destruct capital; reflexivity).
      change (16 =? 16) with true. cbn [andb orb]. rewrite Hus. reflexivity. }
    replace (first_satisfies (is_char "+")
               (literal_prefix (Hexadecimal capital) +:+ digits))
      with false by (destruct capital; reflexivity).
    replace (first_satisfies (is_char "-")
               (literal_prefix (Hexadecimal capital) +:+ digits))
      with false by (destruct capital; reflexivity).
    cbn [literal_radix] in *. rewrite Hskip, Hus.
    rewrite (scan_digits_numeral 16 digits false 0 Hall (or_intror Hne)).
    f_equal. lia.
  - assert (skip_prefix 2 (literal_prefix (Binary capital) +:+ digits)
            = digits) as Hskip.
    { unfold skip_prefix.
      replace (startswith "0b" (literal_prefix (Binary capital) +:+ digits)
               || startswith "0B" (literal_prefix (Binary capital) +:+ digits))
        with true by (destruct capital, digits; reflexivity).
      replace (slice_from 2 (literal_prefix (Binary capital) +:+ digits))
        with digits by (destruct capital; reflexivity).
      change (2 =? 16) with false. change (2 =? 2) with true.
      cbn [andb orb]. rewrite Hus. reflexivity. }
    replace (first_satisfies (is_char "+")
               (literal_prefix (Binary capital) +:+ digits))
      with false by (destruct capital; reflexivity).
    replace (first_satisfies (is_char "-")
               (literal_prefix (Binary capital) +:+ digits))
      with false by (destruct capital; reflexivity).
    cbn [literal_radix] in *. rewrite Hskip, Hus.
    rewrite (scan_digits_numeral 2 digits false 0 Hall (or_intror Hne)).
    f_equal. lia.
Qed.

Lemma numeral_value_format_05b (n : Z) :
  0 <= n <= 31 -> numeral_value 2 0 (format_05b n) = n.
Proof.
  intros [Hlo Hhi].
  destruct n as [| p | p]; [reflexivity | | lia].
  do 5 (try destruct p as [p | p |]); try reflexivity; lia.
Qed.

Lemma startswith_two (a b : ascii) (s : string) :
  startswith (String a (String b "")) s = true ->
  exists r, s = String a (String b r).
Proof.
  unfold startswith. intros H. apply String.prefix_correct in H.
  destruct s as [| c1 [| c2 r]]; cbn in H; try discriminate.
  injection H as -> -> _. eauto.
Qed.

(** A decimal numeral carries none of the prefixes. *)
Lemma decimal_no_prefix (a b : ascii) (digits : string) :
  is_digit_below 10 b = false ->
  all_chars (is_digit_below 10) digits = true ->
  startswith (String a (String b "")) digits = false.
Proof.
  intros Hb Hall.
  destruct (startswith (String a (String b "")) digits) eqn:E;
    [| reflexivity].
  apply startswith_two in E as [r ->]. cbn [all_chars] in Hall.
  rewrite Hb, andb_false_r in Hall. discriminate.
Qed.

(** X1: a numeral written with the digits of its base, after the prefix
    [0x]/[0X] for base 16 or [0b]/[0B] for base 2 and without prefix for
    base 10, that is not the name of a label, resolves to five binary
    digits whose value is the value of the numeral when this value is at
    most 31, and to the one error of that base when it is larger; both
    values are read from the table of digits. *)
Theorem literal_operand_value (self : AssemblyCompiler) (k : literal_kind)
    (digits : string) :
  digits <> "" ->
  all_chars (is_digit_below (literal_radix k)) digits = true ->
  labels self !! (literal_prefix k +:+ digits) = None ->
  if numeral_value (literal_radix k) 0 digits <=? 31 then
    exists bits,
      resolve_argument self (literal_prefix k +:+ digits) = Return bits
      /\ String.length bits = 5%nat
      /\ all_chars is_bit bits = true
      /\ numeral_value 2 0 bits = numeral_value (literal_radix k) 0 digits
  else
    resolve_argument self (literal_prefix k +:+ digits)
    = Raise (literal_error k (literal_prefix k +:+ digits)).
Proof.
  intros Hne Hall Hl.
  pose proof (int_numeral k digits Hne Hall) as Hint.
  assert (0 <= numeral_value (literal_radix k) 0 digits) as Hnn
    by (apply numeral_value_nonneg; [destruct k; cbn; lia | lia]).
  set (v := numeral_value (literal_radix k) 0 digits) in *.
  set (arg := literal_prefix k +:+ digits) in *.
  assert (resolve_argument self arg
          = if v <=? 31 then Return (format_05b v)
            else Raise (literal_error k arg)) as Hres.
  { unfold resolve_argument. rewrite Hl.
    assert (in_range v = (v <=? 31)) as Hin.
    { unfold in_range. apply Z.leb_le in Hnn. rewrite Hnn. reflexivity. }
    destruct k as [| capital | capital]; cbn [literal_radix] in *.
    - subst arg. cbn [literal_prefix] in *. rewrite append_nil in *.
      rewrite !(decimal_no_prefix _ _ digits) by (reflexivity || exact Hall).
      cbn [orb]. unfold literal_attempt, int_call. rewrite Hint, Hin.
      destruct (v <=? 31); reflexivity.
    - replace (startswith "0x" arg || startswith "0X" arg) with true
        by (subst arg; destruct capital, digits; reflexivity).
      unfold literal_attempt, int_call. rewrite Hint, Hin.
      destruct (v <=? 31); reflexivity.
    - replace (startswith "0x" arg || startswith "0X" arg) with false
        by (subst arg; destruct capital, digits; reflexivity).
      replace (startswith "0b" arg || startswith "0B" arg) with true
        by (subst arg; destruct capital, digits; reflexivity).
      unfold literal_attempt, int_call. rewrite Hint, Hin.
      destruct (v <=? 31); reflexivity. }
  rewrite Hres. destruct (v <=? 31) eqn:Hle; [| reflexivity].
  apply Z.leb_le in Hle. exists (format_05b v).
  split; [reflexivity |]. split; [apply format_05b_length; lia |].
  split; [apply format_05b_bits; lia |].
  apply numeral_value_format_05b. lia.
Qed.

(** X1, witness: [0x1F] resolves to [11111]. *)
Lemma literal_operand_value_witness :
  exists bits,
    resolve_argument init "0x1F" = Return bits
    /\ String.length bits = 5%nat
    /\ all_chars is_bit bits = true
    /\ numeral_value 2 0 bits = 31.
Proof.
  apply (literal_operand_value init (Hexadecimal false) "1F");
    [discriminate | reflexivity | reflexivity].
Defined.

(** X2: when every recorded label address lies in 0..31, whatever
    [resolve_argument] returns is a string of exactly five binary digits
    whose value lies in 0..31; the value is the label's address when the
    token is a label. *)
Theorem resolve_argument_five_bits (self : AssemblyCompiler)
    (arg bits : string) :
  labels_in_range self ->
  resolve_argument self arg = Return bits ->
  String.length bits = 5%nat
  /\ all_chars is_bit bits = true
  /\ exists v, 0 <= v <= 31 /\ int 2 bits = Some v
               /\ (forall a, labels self !! arg = Some a -> v = a).
Proof.
  intros Hrange Hres.
  destruct (resolve_argument_Return _ _ _ Hres) as (v & -> & Hv).
  assert (Hb : 0 <= v <= 31).
  { destruct Hv as [Hl | [_ Hr]];
      [exact (Hrange _ _ Hl) | apply in_range_bounds, Hr]. }
  split; [apply format_05b_length, Hb |].
  split; [apply format_05b_bits; lia |].
  exists v. split; [exact Hb |]. split; [apply int_format_05b; lia |].
  intros a Ha. destruct Hv as [Hl | [Hl _]]; congruence.
Qed.

(** X2, witness: a label at address 20. *)
Lemma resolve_argument_five_bits_witness :
  String.length "10100" = 5%nat
  /\ all_chars is_bit "10100" = true
  /\ exists v, 0 <= v <= 31 /\ int 2 "10100" = Some v
               /\ (forall a,
                      labels {| labels := {[ "END" := 20 ]};
                                current_address := 3 |} !! "END" = Some a ->
                      v = a).
Proof.
  apply (resolve_argument_five_bits
           {| labels := {[ "END" := 20 ]}; current_address := 3 |} "END").
  - intros name a Ha. cbn [labels] in Ha.
    apply lookup_singleton_Some in Ha as [_ <-]. lia.
  - vm_compute. reflexivity.
Defined.

(* ================================================================== *)
(** ** Beyond the claims: single lines                                 *)
(* ================================================================== *)

Lemma at_address_same (self : AssemblyCompiler) :
  at_address self (current_address self) = self.
Proof. destruct self. reflexivity. Qed.

(** X3: on a line [ORG arg], in either pass, the address counter becomes
    the value the argument resolves to, nothing else changes (a label
    written on the line is not recorded) and no word is appended; when
    the argument does not resolve, the line raises the resolver's error
    and leaves the instance as it was. *)
Theorem org_line_sets_counter (line : string) (label : option string)
    (arg : string) (machine_code : list (Z * string))
    (self : AssemblyCompiler) :
  parse_line line = (label, Some "ORG", [arg]) ->
  match resolve_argument self arg with
  | Return bits =>
      exists v, bits = format_05b v
                /\ first_pass_line line self = (Return tt, at_address self v)
                /\ second_pass_line line machine_code self
                   = (Return machine_code, at_address self v)
  | Raise e =>
      first_pass_line line self = (Raise e, self)
      /\ second_pass_line line machine_code self = (Raise e, self)
  end.
Proof.
  intros Hparse.
  rewrite (first_pass_line_org _ _ _ Hparse).
  rewrite (second_pass_line_org _ _ _ _ Hparse).
  unfold org_directive. run_monad.
  destruct (resolve_argument self arg) as [bits | e] eqn:Hres; [| auto].
  destruct (resolve_argument_Return _ _ _ Hres) as (v & -> & _).
  exists v. unfold int_call. rewrite int_format_05b_any. auto.
Qed.

(** X3, witness: [ORG 0x1f] with a label in front. *)
Lemma org_line_sets_counter_witness :
  match resolve_argument init "0x1f" with
  | Return bits =>
      exists v, bits = format_05b v
                /\ first_pass_line "BOOT: ORG 0x1f" init
                   = (Return tt, at_address init v)
                /\ second_pass_line "BOOT: ORG 0x1f" [] init
                   = (Return [], at_address init v)
  | Raise e =>
      first_pass_line "BOOT: ORG 0x1f" init = (Raise e, init)
      /\ second_pass_line "BOOT: ORG 0x1f" [] init = (Raise e, init)
  end.
Proof.
  apply (org_line_sets_counter "BOOT: ORG 0x1f" (Some "BOOT") "0x1f" [] init).
  reflexivity.
Defined.

Lemma parse_line_blank (line : string) :
  blank_line line -> parse_line line = (None, None, []).
Proof. unfold blank_line, parse_line. intros ->. reflexivity. Qed.

(** X4: a line that is empty or holds only blanks and a comment changes
    nothing in either pass: no label, no word, no move of the address
    counter, no error. *)
Theorem blank_line_is_skipped (line : string)
    (machine_code : list (Z * string)) (self : AssemblyCompiler) :
  blank_line line ->
  first_pass_line line self = (Return tt, self)
  /\ second_pass_line line machine_code self = (Return machine_code, self).
Proof.
  intros Hblank. pose proof (parse_line_blank line Hblank) as Hparse. split.
  - rewrite (first_pass_line_other _ _ _ _ _ Hparse) by discriminate.
    cbn. destruct self. reflexivity.
  - apply (second_pass_line_skip _ _ _ _ _ _ Hparse). reflexivity.
Qed.

(** X4, witness. *)
Lemma blank_line_is_skipped_witness :
  first_pass_line "   ; Boot code at address 0" init = (Return tt, init)
  /\ second_pass_line "   ; Boot code at address 0" [(3, "000000000")] init
     = (Return [(3, "000000000")], init).
Proof.
  apply (blank_line_is_skipped "   ; Boot code at address 0"
           [(3, "000000000")] init).
  reflexivity.
Defined.

Lemma partition_comment (a b : string) :
  fst (partition ";" (a +:+ String ";" b)) = fst (partition ";" a).
Proof.
  induction a as [| c r IH]; rewrite ?append_nil, ?append_cons.
  - reflexivity.
  - cbn [partition]. destruct (is_char ";" c); [reflexivity |].
    destruct (partition ";" (r +:+ String ";" b)) as [h t].
    destruct (partition ";" r) as [h' t']. simpl in *. congruence.
Qed.

(** X5: what follows a semicolon never matters: a line parses the same
    with and without any text appended after a semicolon. *)
Theorem comment_is_ignored (text comment : string) :
  parse_line (text +:+ String ";" comment) = parse_line text.
Proof.
  unfold parse_line, strip_comment. rewrite partition_comment. reflexivity.
Qed.

(* ================================================================== *)
(** ** Beyond the claims: the label table                              *)
(* ================================================================== *)

Lemma first_pass_line_dom (line : string) (r : result unit)
    (self self' : AssemblyCompiler) :
  first_pass_line line self = (r, self') ->
  dom (labels self) ⊆ dom (labels self').
Proof.
  intros H name Hin. apply elem_of_dom. apply elem_of_dom in Hin.
  exact (first_pass_line_keeps _ _ _ _ name H Hin).
Qed.

(** X6: the first pass never forgets a label: every name in the label
    table of the instance it starts on is still in the table it leaves,
    whether it returns or raises. *)
Theorem first_pass_keeps_labels (lines : list string) (r : result unit)
    (self self' : AssemblyCompiler) :
  first_pass lines self = (r, self') ->
  dom (labels self) ⊆ dom (labels self').
Proof.
  rewrite first_pass_unfold. intros H name Hin.
  apply elem_of_dom. apply elem_of_dom in Hin.
  exact (first_pass_loop_keeps _ _ _ _ name H Hin).
Qed.

(** X6, witness: a first pass that raises on its second line. *)
Lemma first_pass_keeps_labels_witness :
  dom (labels {| labels := {[ "OLD" := 4 ]}; current_address := 9 |})
  ⊆ dom (labels (snd (first_pass ["NEW: NOP"; "ORG"]
                        {| labels := {[ "OLD" := 4 ]};
                           current_address := 9 |}))).
Proof.
  apply (first_pass_keeps_labels ["NEW: NOP"; "ORG"]
           (Raise (ValueError "ORG directive requires exactly one argument"))).
  vm_compute. reflexivity.
Defined.

(** X7: the second pass never writes the label table: the instance it
    leaves, on return or on error, holds the table it was given. *)
Theorem second_pass_keeps_label_table (lines : list string)
    (r : result (list (Z * string))) (self self' : AssemblyCompiler) :
  second_pass lines self = (r, self') -> labels self' = labels self.
Proof.
  rewrite second_pass_unfold. intros H.
  apply second_pass_loop_labels in H. exact H.
Qed.

(** X7, witness. *)
Lemma second_pass_keeps_label_table_witness :
  labels (snd (second_pass ["L: NOP"; "JMP L"; "FOO"]
                 {| labels := {[ "L" := 0 ]}; current_address := 0 |}))
  = labels {| labels := {[ "L" := 0 ]}; current_address := 0 |}.
Proof.
  apply (second_pass_keeps_label_table ["L: NOP"; "JMP L"; "FOO"]
           (fst (second_pass ["L: NOP"; "JMP L"; "FOO"]
                   {| labels := {[ "L" := 0 ]}; current_address := 0 |}))).
  apply surjective_pairing.
Defined.

Lemma first_pass_line_other_label (line : string) (r : result unit)
    (self self' : AssemblyCompiler) (name : string) :
  name <> "" -> ~ defines_label name line ->
  first_pass_line line self = (r, self') ->
  labels self' !! name = labels self !! name.
Proof.
  intros Hname Hnot. unfold defines_label in Hnot.
  destruct (parse_line line) as [[label instruction] args] eqn:Hparse.
  cbn [fst snd] in Hnot.
  destruct (decide (instruction = Some "ORG")) as [-> | Horg].
  - rewrite (first_pass_line_org _ _ _ Hparse). intros H.
    apply org_directive_labels in H. rewrite H. reflexivity.
  - rewrite (first_pass_line_other _ _ _ _ _ Hparse Horg).
    intros [= _ <-]. cbn [labels].
    destruct (truthy label) eqn:Ht; [| reflexivity].
    destruct label as [l |]; [| discriminate].
    change (default "" (Some l)) with l.
    apply lookup_insert_ne. intros Heq. subst l. apply Hnot. auto.
Qed.

Lemma first_pass_loop_other_label (lines : list string) (r : result unit)
    (self self' : AssemblyCompiler) (name : string) :
  name <> "" ->
  Forall (fun line => ~ defines_label name line) lines ->
  first_pass_loop lines self = (r, self') ->
  labels self' !! name = labels self !! name.
Proof.
  intros Hname. revert self.
  induction lines as [| line rest IH]; intros self Hall.
  - unfold first_pass_loop, ret. intros [= _ <-]. reflexivity.
  - apply Forall_cons in Hall as [Hline Hrest].
    cbn [first_pass_loop]. unfold bind.
    destruct (first_pass_line line self) as [[u | e] s] eqn:Hl;
      pose proof (first_pass_line_other_label _ _ _ _ _ Hname Hline Hl) as Heq.
    + intros H. rewrite (IH s Hrest H). exact Heq.
    + intros [= _ <-]. exact Heq.
Qed.

(** X8: redefining a label overwrites it silently, and the last
    definition wins: after a first pass that returns, a label holds the
    value the address counter had on reaching the last line that defines
    it (a line with that label in front and no [ORG]). *)
Theorem last_definition_wins (pre post : list string) (line name : string)
    (self self' : AssemblyCompiler) :
  name <> "" ->
  defines_label name line ->
  Forall (fun later => ~ defines_label name later) post ->
  first_pass (pre ++ line :: post) self = (Return tt, self') ->
  labels self' !! name = Some (current_address (snd (first_pass pre self))).
Proof.
  intros Hname [Hlabel Hins] Hpost. rewrite !first_pass_unfold. intros H.
  apply first_pass_loop_split in H as (sa & sb & Hpre & Hline & Hrest).
  rewrite Hpre. cbn [snd].
  rewrite (first_pass_loop_other_label _ _ _ _ _ Hname Hpost Hrest).
  destruct (parse_line line) as [[label instruction] args] eqn:Hparse.
  cbn [fst snd] in Hlabel, Hins. subst label.
  rewrite (first_pass_line_other _ _ _ _ _ Hparse Hins) in Hline.
  rewrite (truthy_Some _ Hname) in Hline. injection Hline as <-.
  cbn. apply lookup_insert_eq.
Qed.

(** X8, witness: [L] defined twice, then used. *)
Lemma last_definition_wins_witness :
  labels (snd (first_pass (["L: NOP"; "NOP"] ++ "L: HALT" :: ["JMP L"]) init))
    !! "L"
  = Some (current_address (snd (first_pass ["L: NOP"; "NOP"] init))).
Proof.
  apply (last_definition_wins ["L: NOP"; "NOP"] ["JMP L"] "L: HALT" "L" init).
  - discriminate.
  - split; [reflexivity | vm_compute; discriminate].
  - repeat constructor. intros [H _]. vm_compute in H. discriminate.
  - vm_compute. reflexivity.
Defined.

(* ================================================================== *)
(** ** Beyond the claims: errors                                       *)
(* ================================================================== *)

Lemma resolve_argument_Raise_failure (self : AssemblyCompiler)
    (arg : string) (e : exn) :
  resolve_argument self arg = Raise e -> e = resolve_failure arg.
Proof.
  unfold resolve_argument, resolve_failure.
  destruct (labels self !! arg); [discriminate |].
  destruct (startswith "0x" arg || startswith "0X" arg);
    [| destruct (startswith "0b" arg || startswith "0B" arg)];
    (destruct (literal_attempt _ _ arg) as [b | e0] eqn:Hlit;
     [ discriminate
     | apply literal_attempt_Raise in Hlit as [m ->]; simpl;
       intros [= <-]; reflexivity ]).
Qed.

Lemma org_directive_Raise_error (args : list string) (e : exn)
    (self self' : AssemblyCompiler) :
  org_directive args self = (Raise e, self') ->
  e = ValueError "ORG directive requires exactly one argument"
  \/ exists arg, e = resolve_failure arg.
Proof.
  unfold org_directive.
  destruct args as [| arg [| ? ?]]; run_monad;
    try (intros [= <- _]; left; reflexivity).
  destruct (resolve_argument self arg) as [bits | e0] eqn:Hres.
  - destruct (resolve_argument_Return _ _ _ Hres) as (v & -> & _).
    unfold int_call. rewrite int_format_05b_any. discriminate.
  - intros [= <- _]. right. exists arg.
    apply (resolve_argument_Raise_failure _ _ _ Hres).
Qed.

Lemma second_pass_line_Raise (line : string) (machine_code : list (Z * string))
    (e : exn) (self self' : AssemblyCompiler) :
  second_pass_line line machine_code self = (Raise e, self') ->
  self' = self /\ second_pass_line_error e.
Proof.
  unfold second_pass_line, second_pass_line_error.
  destruct (parse_line line) as [[label instruction] args].
  destruct (bool_decide (instruction = Some "ORG")).
  - unfold bind at 1.
    destruct (org_directive args self) as [[u | e0] s] eqn:Horg;
      [unfold ret; discriminate |].
    intros [= <- <-]. split.
    + apply (org_directive_Raise _ _ _ _ Horg).
    + destruct (org_directive_Raise_error _ _ _ _ Horg) as [-> | [arg ->]];
        eauto.
  - destruct (negb (truthy instruction) || false);
      [unfold ret; discriminate |].
    destruct (instructions !! default "" instruction) as [opcode |];
      [| unfold raise; intros [= <- <-]; eauto 10].
    unfold encode_one_argument.
    repeat match goal with
    | |- context [if bool_decide ?P then _ else _] => destruct (bool_decide P)
    end;
    destruct args as [| arg [| ? ?]]; run_monad;
    try discriminate; try (intros [= <- <-]; eauto 10);
    (destruct (resolve_argument self arg) as [bits | e0] eqn:Hres;
     [ discriminate
     | intros [= <- <-]; split; [reflexivity |];
       right; left; exists arg;
       apply (resolve_argument_Raise_failure _ _ _ Hres) ]).
Qed.

(** X9: a line on which the second pass raises leaves the instance
    exactly as it was, and the error is one of five: the [ORG] arity
    error, the resolver's error for the argument, the unknown
    instruction, an argument given to a no-argument mnemonic, or a
    one-argument mnemonic without exactly one argument. *)
Theorem second_pass_line_fails_cleanly (line : string)
    (machine_code : list (Z * string)) (e : exn)
    (self self' : AssemblyCompiler) :
  second_pass_line line machine_code self = (Raise e, self') ->
  self' = self /\ second_pass_line_error e.
Proof. apply second_pass_line_Raise. Qed.

(** X9, witness: [HALT 5]. *)
Lemma second_pass_line_fails_cleanly_witness :
  {| labels := {[ "A" := 1 ]}; current_address := 7 |}
  = {| labels := {[ "A" := 1 ]}; current_address := 7 |}
  /\ second_pass_line_error (ValueError "HALT takes no arguments").
Proof.
  apply (second_pass_line_fails_cleanly "HALT 5" [(0, "000000000")]
           (ValueError "HALT takes no arguments")
           {| labels := {[ "A" := 1 ]}; current_address := 7 |}).
  vm_compute. reflexivity.
Defined.

(** X10: the argument count is checked per mnemonic.  One of the eight
    no-argument mnemonics that have an opcode appends its opcode and
    five zeros when given no argument and raises "takes no arguments"
    otherwise; one of the seven one-argument mnemonics given no argument
    or several raises "requires exactly 1 argument".  A failing line
    leaves the instance untouched. *)
Theorem arity_is_checked (line : string) (label : option string)
    (m : string) (args : list string) (machine_code : list (Z * string))
    (self : AssemblyCompiler) :
  parse_line line = (label, Some m, args) ->
  (m ∈ no_argument -> m <> "SPAWN_FISH" ->
     (args = [] ->
        exists opcode,
          instructions !! m = Some opcode
          /\ second_pass_line line machine_code self
             = (Return (machine_code
                        ++ [(current_address self, opcode +:+ "00000")]),
                at_address self (current_address self + 1)))
     /\ (args <> [] ->
           second_pass_line line machine_code self
           = (Raise (ValueError (m +:+ " takes no arguments")), self)))
  /\ (m ∈ one_argument ++ one_argument_5bit ->
      length args <> 1%nat ->
      second_pass_line line machine_code self
      = (Raise (ValueError (m +:+ " requires exactly 1 argument")), self)).
Proof.
  intros Hparse. unfold second_pass_line. rewrite Hparse. split.
  - intros Hin Hfish. cbn [no_argument] in Hin.
    repeat (apply elem_of_cons in Hin as [-> | Hin]);
      [.. | apply elem_of_nil in Hin; destruct Hin];
      try congruence; closed_tests; cbv iota;
      (split; [intros ->; eexists; split; reflexivity
              | intros Hne; destruct args; [congruence | reflexivity]]).
  - intros Hin Hlen. cbn [app one_argument one_argument_5bit] in Hin.
    repeat (apply elem_of_cons in Hin as [-> | Hin]);
      [.. | apply elem_of_nil in Hin; destruct Hin];
      closed_tests; cbv iota; unfold encode_one_argument;
      destruct args as [| arg [| ? ?]]; cbn [length] in Hlen;
      try congruence; reflexivity.
Qed.

(** X10, witness: [HALT] with and without argument, [MOV] without. *)
Lemma arity_is_checked_witness :
  second_pass_line "HALT" [] init = (Return [(0, "100000000")], at_address init 1)
  /\ second_pass_line "HALT 5" [] init
     = (Raise (ValueError "HALT takes no arguments"), init)
  /\ second_pass_line "MOV" [] init
     = (Raise (ValueError "MOV requires exactly 1 argument"), init).
Proof.
  destruct (arity_is_checked "HALT" None "HALT" [] [] init eq_refl)
    as [H0 _].
  destruct (arity_is_checked "HALT 5" None "HALT" ["5"] [] init eq_refl)
    as [H1 _].
  destruct (arity_is_checked "MOV" None "MOV" [] [] init eq_refl)
    as [_ H2].
  assert (Hin : "HALT" ∈ no_argument)
    by (apply (bool_decide_unpack _); vm_compute; exact I).
  destruct (H0 Hin ltac:(discriminate)) as [Hok _].
  destruct (H1 Hin ltac:(discriminate)) as [_ Herr].
  destruct (Hok eq_refl) as (opcode & Hop & Hrun).
  vm_compute in Hop. injection Hop as <-.
  split; [exact Hrun |]. split; [apply Herr; discriminate |].
  apply H2; [apply (bool_decide_unpack _); vm_compute; exact I | discriminate].
Defined.

(** X11: when the second pass raises, it has run the lines before some
    line without error, the iteration for that line raised one of the
    five line errors, and what the pass raises is an [Exception] whose
    message is "Error on line N: " followed by the message of that
    error, [N] being the position of the line, counted from 1, in the
    list of lines the pass was given. *)
Theorem second_pass_error_names_line (lines : list string) (e : exn)
    (self self' : AssemblyCompiler) :
  second_pass lines self = (Raise e, self') ->
  exists (k : nat) (line : string) (cause : exn)
         (mc_k : list (Z * string)) (s_k : AssemblyCompiler),
    lines !! k = Some line
    /\ second_pass (take k lines) self = (Return mc_k, s_k)
    /\ second_pass_line line mc_k s_k = (Raise cause, self')
    /\ second_pass_line_error cause
    /\ e = Exception ("Error on line " +:+ str (Z.of_nat k + 1) +:+ ": "
                      +:+ exn_str cause).
Proof.
  rewrite second_pass_unfold. intros H.
  apply second_pass_loop_Raise in H
    as (k & line & mc_k & s_k & cause & Hk & Hpre & Hline & ->).
  exists k, line, cause, mc_k, s_k.
  split; [exact Hk |]. split; [rewrite second_pass_unfold; exact Hpre |].
  split; [exact Hline |].
  split; [apply (second_pass_line_Raise _ _ _ _ _ Hline) |].
  do 4 f_equal. lia.
Qed.

(** X11, witness: the third line has an unknown mnemonic. *)
Lemma second_pass_error_names_line_witness :
  exists (k : nat) (line : string) (cause : exn)
         (mc_k : list (Z * string)) (s_k : AssemblyCompiler),
    ["NOP"; "; comment"; "FOO 1"; "HALT"] !! k = Some line
    /\ second_pass (take k ["NOP"; "; comment"; "FOO 1"; "HALT"]) init
       = (Return mc_k, s_k)
    /\ second_pass_line line mc_k s_k = (Raise cause, at_address init 1)
    /\ second_pass_line_error cause
    /\ Exception "Error on line 3: Unknown instruction: FOO"
       = Exception ("Error on line " +:+ str (Z.of_nat k + 1) +:+ ": "
                    +:+ exn_str cause).
Proof.
  apply (second_pass_error_names_line ["NOP"; "; comment"; "FOO 1"; "HALT"]
           (Exception "Error on line 3: Unknown instruction: FOO") init).
  vm_compute. reflexivity.
Defined.

Lemma first_pass_loop_Raise_error (lines : list string) (e : exn)
    (self self' : AssemblyCompiler) :
  first_pass_loop lines self = (Raise e, self') ->
  e = ValueError "ORG directive requires exactly one argument"
  \/ exists arg, e = resolve_failure arg.
Proof.
  revert self. induction lines as [| line rest IH]; intros self.
  - unfold first_pass_loop, ret. discriminate.
  - cbn [first_pass_loop]. unfold bind.
    destruct (first_pass_line line self) as [[u | e0] s] eqn:Hline;
      [apply IH |].
    intros [= <- <-].
    destruct (parse_line line) as [[label instruction] args] eqn:Hparse.
    destruct (decide (instruction = Some "ORG")) as [-> | Horg].
    + rewrite (first_pass_line_org _ _ _ Hparse) in Hline.
      apply (org_directive_Raise_error _ _ _ _ Hline).
    + rewrite (first_pass_line_other _ _ _ _ _ Hparse Horg) in Hline.
      discriminate.
Qed.

(** X12: an error of the first pass ends [compile] as it is, without the
    line number the second pass adds: it is the plain [ValueError] of an
    [ORG] without exactly one argument or of an [ORG] argument that does
    not resolve, and the second pass is not run. *)
Theorem first_pass_error_has_no_line_number (code : string) (e : exn)
    (self self' : AssemblyCompiler) :
  first_pass (source_lines code) self = (Raise e, self') ->
  compile code self = (Raise e, self')
  /\ (e = ValueError "ORG directive requires exactly one argument"
      \/ exists arg, e = resolve_failure arg).
Proof.
  intros H. split.
  - unfold compile. cbv zeta. unfold bind. rewrite H. reflexivity.
  - rewrite first_pass_unfold in H.
    apply (first_pass_loop_Raise_error _ _ _ _ H).
Qed.

(** X12, witness: [ORG] on a label that is only defined later. *)
Lemma first_pass_error_has_no_line_number_witness :
  compile ("NOP" +:+ newline +:+ "ORG LATER" +:+ newline +:+ "LATER: HALT") init
  = (Raise (ValueError "Cannot resolve argument: LATER"), at_address init 1)
  /\ (ValueError "Cannot resolve argument: LATER"
      = ValueError "ORG directive requires exactly one argument"
      \/ exists arg,
           ValueError "Cannot resolve argument: LATER" = resolve_failure arg).
Proof.
  apply (first_pass_error_has_no_line_number
           ("NOP" +:+ newline +:+ "ORG LATER" +:+ newline +:+ "LATER: HALT")).
  vm_compute. reflexivity.
Defined.

Lemma blank_line_steps (line : string) (machine_code : list (Z * string))
    (self : AssemblyCompiler) :
  blank_line line ->
  first_pass_line line self = (Return tt, self)
  /\ second_pass_line line machine_code self = (Return machine_code, self).
Proof.
  intros Hblank. pose proof (parse_line_blank line Hblank) as Hparse. split.
  - rewrite (first_pass_line_other _ _ _ _ _ Hparse) by discriminate.
    cbn. destruct self. reflexivity.
  - apply (second_pass_line_skip _ _ _ _ _ _ Hparse). reflexivity.
Qed.

Lemma first_pass_loop_blank (lines : list string) (self : AssemblyCompiler) :
  Forall blank_line lines -> first_pass_loop lines self = (Return tt, self).
Proof.
  induction 1 as [| line rest Hline _ IH]; [reflexivity |].
  cbn [first_pass_loop]. unfold bind.
  rewrite (proj1 (blank_line_steps line [] self Hline)). exact IH.
Qed.

Lemma second_pass_loop_blank (lines : list string) (line_num : Z)
    (machine_code : list (Z * string)) (self : AssemblyCompiler) :
  Forall blank_line lines ->
  second_pass_loop line_num lines machine_code self
  = (Return machine_code, self).
Proof.
  intros Hall. revert line_num.
  induction Hall as [| line rest Hline _ IH]; intros n; [reflexivity |].
  cbn [second_pass_loop]. unfold bind, try_except.
  rewrite (proj2 (blank_line_steps line machine_code self Hline)). apply IH.
Qed.

(** X13: a source made only of empty lines, blanks and comments compiles
    to the empty list of words, without error; the instance keeps its
    label table and ends with the address counter at 0. *)
Theorem blank_source_compiles_to_nothing (code : string)
    (self : AssemblyCompiler) :
  Forall blank_line (source_lines code) ->
  compile code self = (Return [], at_address self 0).
Proof.
  intros Hall. unfold compile. cbv zeta. unfold bind.
  rewrite first_pass_unfold, (first_pass_loop_blank _ _ Hall).
  rewrite second_pass_unfold, (second_pass_loop_blank _ _ _ _ Hall).
  reflexivity.
Qed.

(** X13, witness: two comments around an empty line. *)
Lemma blank_source_compiles_to_nothing_witness :
  compile ("; start" +:+ newline +:+ newline +:+ "   ; end")
    {| labels := {[ "K" := 2 ]}; current_address := 5 |}
  = (Return [],
     at_address {| labels := {[ "K" := 2 ]}; current_address := 5 |} 0).
Proof.
  apply (blank_source_compiles_to_nothing
           ("; start" +:+ newline +:+ newline +:+ "   ; end")).
  repeat constructor.
Defined.

(* ================================================================== *)
(** ** Beyond the claims: the words of the second pass                 *)
(* ================================================================== *)

Lemma opcode_bits (m opcode : string) :
  instructions !! m = Some opcode ->
  all_chars is_bit opcode = true /\ String.length opcode = 4%nat.
Proof.
  intros Hop. unfold instructions in Hop.
  apply elem_of_list_to_map_2 in Hop.
  repeat (apply elem_of_cons in Hop as [[= -> ->] | Hop]);
    [.. | apply elem_of_nil in Hop; destruct Hop]; split; reflexivity.
Qed.

(** The word a successful iteration appends: the opcode of the mnemonic,
    then five zeros or the resolved argument. *)
Lemma second_pass_line_word (line : string) (label : option string)
    (instruction : string) (args : list string)
    (machine_code machine_code' : list (Z * string))
    (self self' : AssemblyCompiler) :
  parse_line line = (label, Some instruction, args) ->
  instruction <> "ORG" ->
  second_pass_line line machine_code self = (Return machine_code', self') ->
  (instruction = "SPAWN_OBSTACLE" /\ machine_code' = machine_code)
  \/ exists opcode bits,
       instructions !! instruction = Some opcode
       /\ machine_code' =
          machine_code ++ [(current_address self, opcode +:+ bits)]
       /\ (bits = "00000"
           \/ exists arg, resolve_argument self arg = Return bits).
Proof.
  intros Hparse Horg. pose proof (parse_line_instruction _ _ _ _ Hparse) as Hne.
  unfold second_pass_line. rewrite Hparse.
  rewrite bool_decide_eq_false_2 by congruence.
  rewrite (truthy_Some _ Hne). cbn [negb orb].
  change (default "" (Some instruction)) with instruction.
  destruct (instructions !! instruction) as [opcode |] eqn:Hop;
    [| unfold raise; discriminate].
  pose proof Hop as Hin. unfold instructions in Hin.
  apply elem_of_list_to_map_2 in Hin.
  repeat (apply elem_of_cons in Hin as [[= -> ->] | Hin]);
    [.. | apply elem_of_nil in Hin; destruct Hin];
    closed_tests; cbv iota; unfold encode_one_argument;
    destruct args as [| arg [| ? ?]]; run_monad; try discriminate;
    try (destruct (resolve_argument self arg) as [bits |] eqn:Hres;
         [| discriminate]);
    intros [= <- <-]; eauto 10.
Qed.

Lemma emits_word_parse (line : string) (label : option string)
    (instruction : string) (args : list string) :
  parse_line line = (label, Some instruction, args) ->
  instruction <> "ORG" ->
  emits_word line = negb (bool_decide (instruction = "SPAWN_OBSTACLE")).
Proof.
  intros Hparse Horg. unfold emits_word. rewrite Hparse.
  rewrite (bool_decide_eq_false_2 _ Horg). reflexivity.
Qed.

Lemma resolved_word_ok (self : AssemblyCompiler) (opcode bits m : string) :
  nonneg_state self ->
  instructions !! m = Some opcode ->
  (bits = "00000" \/ exists arg, resolve_argument self arg = Return bits) ->
  word_ok (opcode +:+ bits)
  /\ (labels_in_range self -> String.length (opcode +:+ bits) = 9%nat).
Proof.
  intros [_ Hlab] Hop Hbits.
  destruct (opcode_bits _ _ Hop) as [Hob Hol].
  assert (Hb : all_chars is_bit bits = true
               /\ (5 <= String.length bits)%nat
               /\ (labels_in_range self -> String.length bits = 5%nat)).
  { destruct Hbits as [-> | [arg Hres]]; [repeat split; simpl; lia |].
    destruct (resolve_argument_Return _ _ _ Hres) as (v & -> & Hv).
    assert (0 <= v) as Hpos.
    { destruct Hv as [Hl | [_ Hr]];
        [exact (Hlab _ _ Hl) | apply in_range_bounds in Hr; lia]. }
    split; [apply format_05b_bits, Hpos |].
    split; [apply format_05b_min_length, Hpos |].
    intros Hrange. apply format_05b_length.
    destruct Hv as [Hl | [_ Hr]];
      [exact (Hrange _ _ Hl) | apply in_range_bounds, Hr]. }
  destruct Hb as (Hbb & Hbl & Hb5). unfold word_ok.
  rewrite all_chars_app, Hob, Hbb, length_append, Hol.
  split; [split; [reflexivity | lia] |].
  intros Hrange. rewrite (Hb5 Hrange). reflexivity.
Qed.

(** One successful iteration of the second pass, on an instance without
    negative address. *)
Lemma second_pass_line_step (line : string)
    (machine_code machine_code' : list (Z * string))
    (self self' : AssemblyCompiler) :
  nonneg_state self ->
  second_pass_line line machine_code self = (Return machine_code', self') ->
  nonneg_state self'
  /\ exists out,
       machine_code' = machine_code ++ out
       /\ length out = (if emits_word line then 1 else 0)%nat
       /\ Forall (fun p => fst p = current_address self
                           /\ word_ok (snd p)
                           /\ (labels_in_range self ->
                               String.length (snd p) = 9%nat)) out.
Proof.
  intros Hnn H.
  pose proof (second_pass_line_labels _ _ _ _ _ H) as Hlab.
  destruct (parse_line line) as [[label instruction] args] eqn:Hparse.
  destruct (decide (instruction = Some "ORG")) as [-> | Horg].
  - rewrite (second_pass_line_org _ _ _ _ Hparse) in H.
    unfold bind, ret in H.
    destruct (org_directive args self) as [[u | e] s] eqn:Ho; [| discriminate].
    injection H as <- <-.
    apply (org_directive_value _ _ _ _ Hnn) in Ho as (arg & v & _ & _ & Hv & ->).
    split; [split; [exact Hv | apply Hnn] |].
    exists []. rewrite app_nil_r. split; [reflexivity |].
    split; [| constructor].
    unfold emits_word. rewrite Hparse. reflexivity.
  - destruct (truthy instruction) eqn:Ht.
    + destruct instruction as [ins |]; [| discriminate].
      assert (Hne : ins <> "ORG") by congruence.
      destruct (second_pass_line_Return _ _ _ _ _ _ _ _ Hparse Hne H)
        as [-> _].
      split; [destruct Hnn as [Ha Hl]; split; [cbn; lia | exact Hl] |].
      rewrite (emits_word_parse _ _ _ _ Hparse Hne).
      destruct (decide (ins = "SPAWN_OBSTACLE")) as [-> | Hs].
      * exists []. rewrite app_nil_r. split; [| split; [reflexivity | constructor]].
        revert H. unfold second_pass_line. rewrite Hparse.
        closed_tests. cbv iota. run_monad. congruence.
      * rewrite (bool_decide_eq_false_2 _ Hs).
        destruct (second_pass_line_word _ _ _ _ _ _ _ _ Hparse Hne H)
          as [[-> _] | (opcode & bits & Hop & -> & Hbits)]; [congruence |].
        exists [(current_address self, opcode +:+ bits)].
        split; [reflexivity |]. split; [reflexivity |].
        constructor; [| constructor]. cbn [fst snd].
        destruct (resolved_word_ok self opcode bits ins Hnn Hop Hbits)
          as [Hw H9].
        auto.
    + rewrite (second_pass_line_skip _ _ _ _ _ _ Hparse Ht) in H.
      injection H as <- <-. split; [exact Hnn |].
      exists []. rewrite app_nil_r. split; [reflexivity |].
      split; [| constructor].
      unfold emits_word. rewrite Hparse.
      destruct instruction as [ins |]; [| reflexivity].
      pose proof (parse_line_instruction _ _ _ _ Hparse) as Hins.
      rewrite (truthy_Some _ Hins) in Ht. discriminate.
Qed.

Lemma second_pass_loop_steps (lines : list string) :
  forall (line_num : Z) (machine_code machine_code' : list (Z * string))
         (self self' : AssemblyCompiler),
    nonneg_state self ->
    second_pass_loop line_num lines machine_code self
    = (Return machine_code', self') ->
    nonneg_state self'
    /\ exists out,
         machine_code' = machine_code ++ out
         /\ length out = length (List.filter emits_word lines)
         /\ Forall (fun p => 0 <= fst p
                             /\ word_ok (snd p)
                             /\ (labels_in_range self ->
                                 String.length (snd p) = 9%nat)) out.
Proof.
  induction lines as [| line rest IH]; intros n mc mc' self self' Hnn H.
  - cbn in H. unfold ret in H. injection H as <- <-.
    split; [exact Hnn |]. exists []. rewrite app_nil_r.
    repeat split. constructor.
  - apply second_pass_loop_cons in H as (mc1 & s1 & Hline & Hrest).
    pose proof (second_pass_line_labels _ _ _ _ _ Hline) as Hlab.
    destruct (second_pass_line_step _ _ _ _ _ Hnn Hline)
      as (Hnn1 & out1 & -> & Hlen1 & Hall1).
    destruct (IH _ _ _ _ _ Hnn1 Hrest) as (Hnn' & out2 & -> & Hlen2 & Hall2).
    split; [exact Hnn' |]. exists (out1 ++ out2).
    split; [rewrite app_assoc; reflexivity |]. split.
    + rewrite length_app, Hlen1, Hlen2. cbn [List.filter].
      destruct (emits_word line); reflexivity.
    + apply Forall_app. split.
      * eapply Forall_impl; [exact Hall1 |].
        intros p (Ha & Hw & H9). destruct Hnn as [Hpos _].
        split; [lia | auto].
      * eapply Forall_impl; [exact Hall2 |].
        intros p (Ha & Hw & H9). split; [exact Ha |]. split; [exact Hw |].
        intros Hrange. apply H9. unfold labels_in_range in *.
        rewrite Hlab. exact Hrange.
Qed.

Lemma compile_words (code : string) (mc : list (Z * string))
    (self self' : AssemblyCompiler) :
  map_Forall (fun (_ : string) (a : Z) => 0 <= a) (labels self) ->
  compile code self = (Return mc, self') ->
  length mc = length (List.filter emits_word (source_lines code))
  /\ Forall (fun p => 0 <= fst p
                      /\ word_ok (snd p)
                      /\ (labels_in_range self' ->
                          String.length (snd p) = 9%nat)) mc.
Proof.
  intros Hlab H. apply compile_Return in H as [Hfp Hsp].
  set (S1 := after_first_pass (source_lines code) self) in *.
  assert (Hnn1 : nonneg_state S1).
  { rewrite first_pass_unfold in Hfp.
    apply (first_pass_loop_nonneg _ _ _ _ (nonneg_at_zero self Hlab) Hfp). }
  rewrite second_pass_unfold in Hsp.
  pose proof (second_pass_loop_labels _ _ _ _ _ _ Hsp) as Hsame.
  apply second_pass_loop_steps in Hsp
    as (_ & out & Hout & Hlen & Hall);
    [| apply nonneg_at_zero, Hnn1].
  cbn [app] in Hout. subst out. split; [exact Hlen |].
  eapply Forall_impl; [exact Hall |].
  intros p (Ha & Hw & H9). split; [exact Ha |]. split; [exact Hw |].
  intros Hrange. apply H9. unfold labels_in_range in *.
  rewrite <- Hsame. exact Hrange.
Qed.

(** X14: on an instance whose label addresses are not negative (a fresh
    one in particular), a compilation that returns gives one pair for
    each line carrying an instruction other than [ORG] and
    [SPAWN_OBSTACLE], no more and no fewer; every address is at least 0
    and every word is made of binary digits, at least nine of them, and
    exactly nine when all label addresses are at most 31. *)
Theorem compiled_words_well_formed (code : string) (mc : list (Z * string))
    (self self' : AssemblyCompiler) :
  map_Forall (fun (_ : string) (a : Z) => 0 <= a) (labels self) ->
  compile code self = (Return mc, self') ->
  length mc = length (List.filter emits_word (source_lines code))
  /\ Forall (fun p => 0 <= fst p /\ word_ok (snd p)) mc
  /\ (labels_in_range self' ->
      Forall (fun p => String.length (snd p) = 9%nat) mc).
Proof.
  intros Hlab H. destruct (compile_words _ _ _ _ Hlab H) as [Hlen Hall].
  split; [exact Hlen |]. split.
  - eapply Forall_impl; [exact Hall |]. intros p (Ha & Hw & _). auto.
  - intros Hrange. eapply Forall_impl; [exact Hall |].
    intros p (_ & _ & H9). auto.
Qed.

(** X14, witness: the boot block with a comment and a silent line. *)
Lemma compiled_words_well_formed_witness :
  length [(0, "111100000"); (2, "000100000")]
  = length (List.filter emits_word
              (source_lines ("START: TITLE_SCREEN ; boot" +:+ newline
                             +:+ "SPAWN_OBSTACLE" +:+ newline
                             +:+ "JMP START")))
  /\ Forall (fun p => 0 <= fst p /\ word_ok (snd p))
            [(0, "111100000"); (2, "000100000")]
  /\ (labels_in_range {| labels := {[ "START" := 0 ]}; current_address := 3 |}
      -> Forall (fun p => String.length (snd p) = 9%nat)
                [(0, "111100000"); (2, "000100000")]).
Proof.
  apply (compiled_words_well_formed
           ("START: TITLE_SCREEN ; boot" +:+ newline +:+ "SPAWN_OBSTACLE"
            +:+ newline +:+ "JMP START")
           [(0, "111100000"); (2, "000100000")] init).
  - apply map_Forall_empty.
  - vm_compute. reflexivity.
Defined.

Lemma word_ok_numeral (w : string) : word_ok w -> is_Some (int 2 w).
Proof.
  intros [Hbits Hlen]. rewrite int_bits; [eauto | exact Hbits |].
  intros ->. simpl in Hlen. lia.
Qed.

Lemma binary_to_hex_loop_numerals (machine_code hex_list : list (Z * string)) :
  Forall (fun p => is_Some (int 2 (snd p))) machine_code ->
  exists out,
    binary_to_hex_loop machine_code hex_list = Return (hex_list ++ out)
    /\ map fst out = map fst machine_code.
Proof.
  revert hex_list.
  induction machine_code as [| [addr b] rest IH]; intros acc Hall.
  - exists []. rewrite app_nil_r. split; reflexivity.
  - apply Forall_cons in Hall as [[n Hn] Hrest]. cbn [snd] in Hn.
    destruct (IH (acc ++ [(addr, zfill 3 (upper (slice_from 2 (hex n))))])
                 Hrest) as (out & Hloop & Hfst).
    exists ((addr, zfill 3 (upper (slice_from 2 (hex n)))) :: out). split.
    + cbn [binary_to_hex_loop]. unfold int_call. rewrite Hn, Hloop.
      rewrite <- app_assoc. reflexivity.
    + cbn [map fst]. rewrite Hfst. reflexivity.
Qed.

Lemma binary_to_hex_loop_Raise (machine_code hex_list : list (Z * string))
    (e : exn) :
  binary_to_hex_loop machine_code hex_list = Raise e ->
  exists p, p ∈ machine_code /\ int 2 (snd p) = None.
Proof.
  revert hex_list.
  induction machine_code as [| [addr b] rest IH]; intros acc.
  - discriminate.
  - cbn [binary_to_hex_loop]. unfold int_call.
    destruct (int 2 b) as [n |] eqn:Hn.
    + intros H. apply IH in H as (p & Hin & Hp).
      exists p. split; [apply list_elem_of_further, Hin | exact Hp].
    + intros _. exists (addr, b). split; [apply list_elem_of_here | exact Hn].
Qed.

(** X15: [binary_to_hex] returns, with the addresses unchanged and in
    the same order, whenever every word reads as a base-2 numeral (the
    empty list included); it raises only when some word does not. *)
Theorem binary_to_hex_fails_only_on_bad_word
    (machine_code : list (Z * string)) :
  (Forall (fun p => is_Some (int 2 (snd p))) machine_code ->
   exists hex_list,
     binary_to_hex machine_code = Return hex_list
     /\ map fst hex_list = map fst machine_code)
  /\ (forall e, binary_to_hex machine_code = Raise e ->
      exists p, p ∈ machine_code /\ int 2 (snd p) = None).
Proof.
  unfold binary_to_hex. split.
  - intros Hall.
    destruct (binary_to_hex_loop_numerals machine_code [] Hall)
      as (out & H & Hfst).
    exists out. auto.
  - intros e. apply binary_to_hex_loop_Raise.
Qed.

(** X15, witness: a ten-bit word and a signed one are converted, a word
    with a letter is refused. *)
Lemma binary_to_hex_fails_only_on_bad_word_witness :
  (exists hex_list,
      binary_to_hex [(7, "0001100000"); (8, "-101")] = Return hex_list
      /\ map fst hex_list = map fst [(7, "0001100000"); (8, "-101")])
  /\ (exists p, p ∈ [(0, "000000000"); (1, "00x000000")]
                /\ int 2 (snd p) = None).
Proof.
  split.
  - apply (proj1 (binary_to_hex_fails_only_on_bad_word
                    [(7, "0001100000"); (8, "-101")])).
    repeat constructor; vm_compute; eauto.
  - apply (proj2 (binary_to_hex_fails_only_on_bad_word
                    [(0, "000000000"); (1, "00x000000")])
             (ValueError "invalid literal for int() with base 2: '00x000000'")).
    vm_compute. reflexivity.
Defined.

(** X16: the hexadecimal stage adds no failure of its own.  On an
    instance whose label addresses are not negative, whenever [compile]
    returns, [compile_to_hex] returns too, with the same addresses in
    the same order and the same final instance; when all label
    addresses are at most 31, each word is rendered as three upper-case
    hexadecimal digits of the same value, both values being read digit
    by digit from a table of digits. *)
Theorem compile_to_hex_follows_compile (code : string)
    (mc : list (Z * string)) (self self' : AssemblyCompiler) :
  map_Forall (fun (_ : string) (a : Z) => 0 <= a) (labels self) ->
  compile code self = (Return mc, self') ->
  exists hex_list,
    compile_to_hex code self = (Return hex_list, self')
    /\ map fst hex_list = map fst mc
    /\ (labels_in_range self' -> Forall2 hex_entry_exact mc hex_list).
Proof.
  intros Hlab H. destruct (compile_words _ _ _ _ Hlab H) as [_ Hall].
  assert (Hnum : Forall (fun p => is_Some (int 2 (snd p))) mc).
  { eapply Forall_impl; [exact Hall |].
    intros p (_ & Hw & _). apply word_ok_numeral, Hw. }
  destruct (binary_to_hex_loop_numerals mc [] Hnum) as (out & Hout & Hfst).
  exists out. split; [| split; [exact Hfst |]].
  - unfold compile_to_hex, bind, reads. rewrite H. unfold binary_to_hex.
    rewrite Hout. reflexivity.
  - intros Hrange.
    assert (H9 : Forall (fun p => String.length (snd p) = 9%nat
                                  /\ all_chars is_bit (snd p) = true) mc).
    { eapply Forall_impl; [exact Hall |].
      intros p (_ & [Hb _] & Hl). auto. }
    destruct (binary_to_hex_loop_9bit_exact mc [] H9) as (out' & Hout' & Hok).
    rewrite Hout in Hout'. injection Hout' as ->. exact Hok.
Qed.

(** X16, witness: the boot block. *)
Lemma compile_to_hex_follows_compile_witness :
  exists hex_list,
    compile_to_hex ("START: TITLE_SCREEN" +:+ newline +:+ "JMP START") init
    = (Return hex_list,
       {| labels := {[ "START" := 0 ]}; current_address := 2 |})
    /\ map fst hex_list = map fst [(0, "111100000"); (1, "000100000")]
    /\ (labels_in_range {| labels := {[ "START" := 0 ]}; current_address := 2 |}
        -> Forall2 hex_entry_exact [(0, "111100000"); (1, "000100000")]
                   hex_list).
Proof.
  apply (compile_to_hex_follows_compile
           ("START: TITLE_SCREEN" +:+ newline +:+ "JMP START")
           [(0, "111100000"); (1, "000100000")] init).
  - apply map_Forall_empty.
  - vm_compute. reflexivity.
Defined.

(* ================================================================== *)
(** ** Beyond the claims: addresses without ORG                        *)
(* ================================================================== *)

Lemma ascending_weaken (lo lo' : Z) (l : list Z) :
  lo <= lo' -> ascending lo' l -> ascending lo l.
Proof. destruct l as [| a r]; simpl; [auto |]. intros ? [? ?]. split; [lia | auto]. Qed.

Lemma second_pass_line_no_org (line : string)
    (machine_code machine_code' : list (Z * string))
    (self self' : AssemblyCompiler) :
  is_org_line line = false ->
  second_pass_line line machine_code self = (Return machine_code', self') ->
  (machine_code' = machine_code
   /\ current_address self <= current_address self')
  \/ (exists w, machine_code' = machine_code ++ [(current_address self, w)]
                /\ current_address self' = current_address self + 1).
Proof.
  unfold is_org_line. intros Horg H.
  apply bool_decide_eq_false in Horg.
  destruct (parse_line line) as [[label instruction] args] eqn:Hparse.
  cbn [fst snd] in Horg.
  destruct (truthy instruction) eqn:Ht.
  - destruct instruction as [ins |]; [| discriminate].
    assert (Hne : ins <> "ORG") by congruence.
    destruct (second_pass_line_Return _ _ _ _ _ _ _ _ Hparse Hne H)
      as [-> [[_ ->] | (opcode & bits & _ & ->)]].
    + left. split; [reflexivity | cbn; lia].
    + right. eauto.
  - rewrite (second_pass_line_skip _ _ _ _ _ _ Hparse Ht) in H.
    injection H as <- <-. left. split; [reflexivity | lia].
Qed.

Lemma second_pass_loop_no_org (lines : list string) :
  forall (line_num : Z) (machine_code machine_code' : list (Z * string))
         (self self' : AssemblyCompiler),
    Forall (fun line => is_org_line line = false) lines ->
    second_pass_loop line_num lines machine_code self
    = (Return machine_code', self') ->
    exists out,
      machine_code' = machine_code ++ out
      /\ current_address self <= current_address self'
      /\ ascending (current_address self) (map fst out)
      /\ Forall (fun a => a < current_address self') (map fst out).
Proof.
  induction lines as [| line rest IH]; intros n mc mc' self self' Hall H.
  - cbn in H. unfold ret in H. injection H as <- <-.
    exists []. rewrite app_nil_r. repeat split; [lia | constructor].
  - apply Forall_cons in Hall as [Hline Hrest].
    apply second_pass_loop_cons in H as (mc1 & s1 & Hl & Hloop).
    destruct (IH _ _ _ _ _ Hrest Hloop) as (out & -> & Hle & Hasc & Hlt).
    destruct (second_pass_line_no_org _ _ _ _ _ Hline Hl)
      as [[-> Hle1] | (w & -> & Hnext)].
    + exists out. split; [reflexivity |]. split; [lia |].
      split; [apply (ascending_weaken _ _ _ Hle1 Hasc) | exact Hlt].
    + exists ((current_address self, w) :: out).
      split; [rewrite <- app_assoc; reflexivity |]. split; [lia |].
      cbn [map fst ascending]. rewrite <- Hnext.
      split; [split; [lia | exact Hasc] |].
      constructor; [lia | exact Hlt].
Qed.

(** X17: in a source without [ORG], the words of a second pass that
    returns come in ascending address order without repetition: the
    first address is at least 0, each further address is larger than
    the one before, and all are below the final value of the address
    counter. *)
Theorem addresses_ascend_without_org (lines : list string)
    (mc : list (Z * string)) (self self' : AssemblyCompiler) :
  Forall (fun line => is_org_line line = false) lines ->
  second_pass lines self = (Return mc, self') ->
  ascending 0 (map fst mc)
  /\ Forall (fun a => a < current_address self') (map fst mc).
Proof.
  intros Hall. rewrite second_pass_unfold. intros H.
  destruct (second_pass_loop_no_org _ _ _ _ _ _ Hall H)
    as (out & Hout & _ & Hasc & Hlt).
  cbn [app] in Hout. subst out. split; [exact Hasc | exact Hlt].
Qed.

(** X17, witness: four lines, one of them silent. *)
Lemma addresses_ascend_without_org_witness :
  ascending 0 (map fst [(0, "000000000"); (2, "011100101"); (3, "100000000")])
  /\ Forall (fun a => a < current_address (at_address init 4))
            (map fst [(0, "000000000"); (2, "011100101"); (3, "100000000")]).
Proof.
  apply (addresses_ascend_without_org
           ["NOP"; "SPAWN_OBSTACLE"; "MOV 5"; "HALT"]
           [(0, "000000000"); (2, "011100101"); (3, "100000000")] init).
  - repeat constructor.
  - vm_compute. reflexivity.
Defined.

(* ================================================================== *)
(** ** Beyond the claims: blanks around the source, shape of a parse   *)
(* ================================================================== *)

Lemma lstrip_all (p : ascii -> bool) (s : string) :
  all_chars p s = true -> lstrip p s = "".
Proof.
  induction s as [| c r IH]; simpl; [reflexivity |].
  intros H. apply andb_true_iff in H as [-> Hr]. auto.
Qed.

Lemma rstrip_all (p : ascii -> bool) (s : string) :
  all_chars p s = true -> rstrip p s = "".
Proof.
  induction s as [| c r IH]; simpl; [reflexivity |].
  intros H. apply andb_true_iff in H as [-> Hr]. rewrite (IH Hr). reflexivity.
Qed.

Lemma lstrip_app_blank (p : ascii -> bool) (a s : string) :
  all_chars p a = true -> lstrip p (a +:+ s) = lstrip p s.
Proof.
  induction a as [| c r IH]; rewrite ?append_nil, ?append_cons;
    [reflexivity |].
  cbn [all_chars lstrip]. intros H. apply andb_true_iff in H as [-> Hr]. auto.
Qed.

Lemma rstrip_app_blank (p : ascii -> bool) (s b : string) :
  all_chars p b = true -> rstrip p (s +:+ b) = rstrip p s.
Proof.
  intros Hb. induction s as [| c r IH]; rewrite ?append_nil, ?append_cons.
  - apply rstrip_all, Hb.
  - cbn [rstrip]. rewrite IH. reflexivity.
Qed.

Lemma lstrip_app (p : ascii -> bool) (s b : string) :
  lstrip p (s +:+ b)
  = if all_chars p s then lstrip p b else lstrip p s +:+ b.
Proof.
  induction s as [| c r IH]; rewrite ?append_nil, ?append_cons;
    [reflexivity |].
  cbn [all_chars lstrip]. destruct (p c); [exact IH | reflexivity].
Qed.

Lemma strip_app_blank (p : ascii -> bool) (a s b : string) :
  all_chars p a = true -> all_chars p b = true ->
  strip p (a +:+ s +:+ b) = strip p s.
Proof.
  intros Ha Hb. unfold strip.
  rewrite (lstrip_app_blank p a _ Ha), lstrip_app.
  destruct (all_chars p s) eqn:Hs.
  - rewrite (lstrip_all p b Hb), (lstrip_all p s Hs). reflexivity.
  - apply rstrip_app_blank, Hb.
Qed.

(** X18: blanks and empty lines before and after the source text do not
    change the compilation: the text is stripped before it is cut into
    lines, so both passes see the same lines, numbered from the first
    line that is not blank. *)
Theorem compile_ignores_surrounding_blanks (before code after : string)
    (self : AssemblyCompiler) :
  all_chars isspace before = true ->
  all_chars isspace after = true ->
  source_lines (before +:+ code +:+ after) = source_lines code
  /\ compile (before +:+ code +:+ after) self = compile code self.
Proof.
  intros Hb Ha.
  assert (Hlines : source_lines (before +:+ code +:+ after)
                   = source_lines code).
  { unfold source_lines. rewrite (strip_app_blank _ _ _ _ Hb Ha). reflexivity. }
  split; [exact Hlines |]. unfold compile. rewrite Hlines. reflexivity.
Qed.

(** X18, witness: the sample layout, a text that starts with an empty
    line and ends with an indented one. *)
Lemma compile_ignores_surrounding_blanks_witness :
  source_lines ((newline +:+ "    ") +:+ "NOP" +:+ (newline +:+ "    "))
  = source_lines "NOP"
  /\ compile ((newline +:+ "    ") +:+ "NOP" +:+ (newline +:+ "    ")) init
     = compile "NOP" init.
Proof.
  apply (compile_ignores_surrounding_blanks
           (newline +:+ "    ") "NOP" (newline +:+ "    ") init);
    reflexivity.
Defined.

Lemma upper_char_fixed (c : ascii) : upper_char (upper_char c) = upper_char c.
Proof. destruct c as [[] [] [] [] [] [] [] []]; reflexivity. Qed.

Lemma upper_char_isspace (c : ascii) : isspace (upper_char c) = isspace c.
Proof. destruct c as [[] [] [] [] [] [] [] []]; reflexivity. Qed.

Lemma upper_fixed (s : string) : upper (upper s) = upper s.
Proof.
  induction s as [| c r IH]; simpl; [reflexivity |].
  rewrite upper_char_fixed, IH. reflexivity.
Qed.

Lemma upper_no_blank (s : string) :
  all_chars (fun c => negb (isspace c)) s = true ->
  all_chars (fun c => negb (isspace c)) (upper s) = true.
Proof.
  induction s as [| c r IH]; simpl; [reflexivity |].
  intros H. apply andb_true_iff in H as [Hc Hr].
  rewrite upper_char_isspace, Hc, (IH Hr). reflexivity.
Qed.

Lemma all_chars_lstrip (q p : ascii -> bool) (s : string) :
  all_chars q s = true -> all_chars q (lstrip p s) = true.
Proof.
  induction s as [| c r IH]; simpl; [reflexivity |].
  intros H. destruct (p c); [| exact H].
  apply andb_true_iff in H as [_ Hr]. auto.
Qed.

Lemma all_chars_rstrip (q p : ascii -> bool) (s : string) :
  all_chars q s = true -> all_chars q (rstrip p s) = true.
Proof.
  induction s as [| c r IH]; simpl; [reflexivity |].
  intros H. apply andb_true_iff in H as [Hc Hr].
  destruct (p c && is_empty (rstrip p r)); [reflexivity |].
  simpl. rewrite Hc, (IH Hr). reflexivity.
Qed.

Lemma all_chars_strip (q p : ascii -> bool) (s : string) :
  all_chars q s = true -> all_chars q (strip p s) = true.
Proof. intros H. apply all_chars_rstrip, all_chars_lstrip, H. Qed.

Lemma partition_fst_no_sep (sep : ascii) (s : string) :
  all_chars (fun c => negb (is_char sep c)) (fst (partition sep s)) = true.
Proof.
  induction s as [| c r IH]; simpl; [reflexivity |].
  destruct (is_char sep c) eqn:Hc; [reflexivity |].
  destruct (partition sep r) as [h t]. simpl in *. rewrite Hc, IH. reflexivity.
Qed.

(** X19: what [parse_line] returns is well shaped.  A label has no colon
    in it and no blank at either end; an instruction is not empty, is in
    upper case and has no blank in it; an argument has no blank in it and
    no comma at either end; and there are arguments only when there is
    an instruction. *)
Theorem parse_line_shape (line : string) (label instruction : option string)
    (args : list string) :
  parse_line line = (label, instruction, args) ->
  (forall l, label = Some l ->
     all_chars (fun c => negb (is_char ":" c)) l = true
     /\ first_satisfies isspace l = false
     /\ last_satisfies isspace l = false)
  /\ (forall i, instruction = Some i ->
        i <> "" /\ upper i = i
        /\ all_chars (fun c => negb (isspace c)) i = true)
  /\ Forall (fun a => all_chars (fun c => negb (isspace c)) a = true
                      /\ first_satisfies (is_char ",") a = false
                      /\ last_satisfies (is_char ",") a = false) args
  /\ (instruction = None -> args = []).
Proof.
  unfold parse_line.
  destruct (is_empty (strip_comment line));
    [intros [= <- <- <-]; repeat split; try discriminate; constructor |].
  assert (Hlabel : forall lbl body l,
             split_label (strip_comment line) = (lbl, body) -> lbl = Some l ->
             all_chars (fun c => negb (is_char ":" c)) l = true
             /\ first_satisfies isspace l = false
             /\ last_satisfies isspace l = false).
  { intros lbl body l. unfold split_label.
    pose proof (partition_fst_no_sep ":" (strip_comment line)) as Hno.
    destruct (partition ":" (strip_comment line)) as [before [after |]];
      intros [= <- _] [= <-].
    split; [apply all_chars_strip, Hno |].
    split; [apply strip_isspace_first | apply rstrip_last]. }
  destruct (split_label (strip_comment line)) as [lbl body] eqn:Hsl.
  destruct (is_empty body).
  { intros [= <- <- <-]. split; [intros l; apply (Hlabel _ _ _ eq_refl) |].
    repeat split; try discriminate; constructor. }
  pose proof (split_tokens body) as Htok.
  destruct (split body) as [| tok toks].
  { intros [= <- <- <-]. split; [intros l; apply (Hlabel _ _ _ eq_refl) |].
    repeat split; try discriminate; constructor. }
  intros [= <- <- <-]. apply Forall_cons in Htok as [[Hne Hnb] Htoks].
  split; [intros l; apply (Hlabel _ _ _ eq_refl) |].
  split; [| split; [| discriminate]].
  - intros i [= <-]. split; [apply upper_nonempty, Hne |].
    split; [apply upper_fixed | apply upper_no_blank, Hnb].
  - clear -Htoks. induction Htoks as [| t ts [_ Ht] _ IH]; constructor;
      [| exact IH].
    split; [apply all_chars_strip, Ht |].
    split; [apply rstrip_first, lstrip_first | apply rstrip_last].
Qed.

(** X19, witness. *)
Lemma parse_line_shape_witness :
  (forall l, Some "loop" = Some l ->
     all_chars (fun c => negb (is_char ":" c)) l = true
     /\ first_satisfies isspace l = false
     /\ last_satisfies isspace l = false)
  /\ (forall i, Some "MOV" = Some i ->
        i <> "" /\ upper i = i
        /\ all_chars (fun c => negb (isspace c)) i = true)
  /\ Forall (fun a => all_chars (fun c => negb (isspace c)) a = true
                      /\ first_satisfies (is_char ",") a = false
                      /\ last_satisfies (is_char ",") a = false)
            ["5"; "r1"]
  /\ (Some "MOV" = None -> ["5"; "r1"] = []).
Proof.
  apply (parse_line_shape "  loop : mov ,5, r1, ; copy" (Some "loop")
           (Some "MOV") ["5"; "r1"]).
  vm_compute. reflexivity.
Defined.

(** X20: the opcode table can be read backwards: every opcode is four
    binary digits, and no two mnemonics share an opcode. *)
Theorem opcode_identifies_mnemonic (m1 m2 opcode : string) :
  instructions !! m1 = Some opcode ->
  instructions !! m2 = Some opcode ->
  m1 = m2
  /\ String.length opcode = 4%nat
  /\ all_chars is_bit opcode = true.
Proof.
  intros H1 H2. destruct (opcode_bits _ _ H1) as [Hb Hl].
  split; [| auto].
  unfold instructions in H1, H2.
  apply elem_of_list_to_map_2, list_elem_of_In in H1.
  apply elem_of_list_to_map_2, list_elem_of_In in H2.
  match type of H1 with
  | In _ ?table =>
      assert (Hchk : forallb (fun p => forallb (fun q =>
                        implb (String.eqb (snd p) (snd q))
                              (String.eqb (fst p) (fst q))) table) table
                     = true) by (vm_compute; reflexivity)
  end.
  pose proof (proj1 (forallb_forall _ _)
                (proj1 (forallb_forall _ _) Hchk _ H1) _ H2) as Himp.
  cbn [fst snd] in Himp. rewrite String.eqb_refl in Himp.
  apply String.eqb_eq. exact Himp.
Qed.

(** X20, witness. *)
Lemma opcode_identifies_mnemonic_witness :
  "GAME_OVER" = "GAME_OVER"
  /\ String.length "1101" = 4%nat
  /\ all_chars is_bit "1101" = true.
Proof.
  apply (opcode_identifies_mnemonic "GAME_OVER" "GAME_OVER" "1101");
    reflexivity.
Defined.
